(** * pywikiapi: the request / retry / continuation engine of [Site]

    A shallow embedding of [src/pywikiapi/Site.py] and the properties of
    its call loop ([Site.__call__]), parameter normalisation
    ([Site._prepare_call]), continuation driver ([Site.iterate]) and page
    reconciler ([Site.query_pages], [Site._merge_page]).

    Conventions of the embedding.
    - A Python [str] is a [string] whose characters are its code points;
      code points above 255 are outside the embedding.
    - A decoded JSON body is a [json] tree; a JSON object is the list of
      its members in insertion order, as a Python [dict] keeps them.
      Numbers are integers: numbers with a fraction are outside the
      embedding.
    - Python exceptions are values of [exn]; a computation is a list of
      observable events (sleeps, requests, log records, yields) followed
      by an outcome.
    - The transport (the [requests] session) is a script: the list of the
      outcomes of the successive HTTP requests.
    - Of the [EXTRAS] of a call, [_prepare_call] is embedded: what
      [request] does with the entries of that dict (the binding of its
      keys, the merge of its [headers]) and what [_prepare_call] leaves
      in it for a later call are not.  The properties of calls are
      stated for calls without [EXTRAS]. *)

From Stdlib Require Import QArith Qabs Qround Ascii.
From stdpp Require Import base option list strings gmap pretty.

Set Warnings "-register-all".
Local Open Scope Z_scope.
Local Open Scope string_scope.

(** ** Decoded JSON values *)

Inductive json : Type :=
| JNull
| JBool (b : bool)
| JInt (n : Z)
| JStr (s : string)
| JArr (items : list json)
| JObj (members : list (string * json)).

(** ** Exceptions *)

Inductive exn : Type :=
| ConnectionError                          (* requests.exceptions.ConnectionError *)
| ApiError (message : string) (data : json)  (* pywikiapi.utils.ApiError *)
| ApiPagesModifiedError (ids : list json)  (* pywikiapi.utils.ApiPagesModifiedError *)
| JSONDecodeError
| KeyError (key : string)
| TypeError
| ValueError
| AttributeError
| OverflowError
| OtherError (name : string).              (* any other failure of the transport *)

(** A value, or the exception raised instead of it. *)
Inductive result (A : Type) : Type :=
| Ok (a : A)
| Err (e : exn).
Arguments Ok {A} a.
Arguments Err {A} e.

#[global] Instance result_ret : MRet result := fun A a => Ok a.
#[global] Instance result_bind : MBind result := fun A B f r =>
  match r with
  | Ok a => f a
  | Err e => Err e
  end.
#[global] Instance result_fmap : FMap result := fun A B f r =>
  match r with
  | Ok a => Ok (f a)
  | Err e => Err e
  end.

(** ** Python operations on decoded JSON *)

Module Py.

(** [d[k]] and [k in d] for a [dict] with [str] keys. *)
Fixpoint dict_get {A} (d : list (string * A)) (k : string) : option A :=
  match d with
  | [] => None
  | (k', v) :: d' => if String.eqb k' k then Some v else dict_get d' k
  end.

(** [d[k] = v]: an existing key keeps its place, a new one goes last. *)
Fixpoint dict_set {A} (d : list (string * A)) (k : string) (v : A)
  : list (string * A) :=
  match d with
  | [] => [(k, v)]
  | (k', v') :: d' =>
      if String.eqb k' k then (k', v) :: d' else (k', v') :: dict_set d' k v
  end.

Definition dict_mem {A} (d : list (string * A)) (k : string) : bool :=
  match dict_get d k with Some _ => true | None => false end.

(** [a == b].  [True == 1] and [False == 0] hold in Python, and two
    dicts are equal when they hold equal values under the same keys,
    in any order. *)
Fixpoint eq (a b : json) {struct a} : bool :=
  match a, b with
  | JNull, JNull => true
  | JBool x, JBool y => Bool.eqb x y
  | JBool x, JInt n | JInt n, JBool x => Z.eqb n (if x then 1 else 0)
  | JInt m, JInt n => Z.eqb m n
  | JStr s, JStr t => String.eqb s t
  | JArr xs, JArr ys =>
      (fix go (xs ys : list json) {struct xs} : bool :=
         match xs, ys with
         | [], [] => true
         | x :: xs', y :: ys' => eq x y && go xs' ys'
         | _, _ => false
         end) xs ys
  | JObj xs, JObj ys =>
      Nat.eqb (length xs) (length ys) &&
      (fix go (xs : list (string * json)) {struct xs} : bool :=
         match xs with
         | [] => true
         | (k, v) :: xs' =>
             match dict_get ys k with
             | Some w => eq v w
             | None => false
             end && go xs'
         end) xs
  | _, _ => false
  end.

(** [hash(v)] succeeds exactly on the values that are not containers. *)
Definition hashable (v : json) : bool :=
  match v with
  | JArr _ | JObj _ => false
  | _ => true
  end.

(** [sub in s] for two strings. *)
Fixpoint substring_of (sub s : string) : bool :=
  String.prefix sub s ||
  match s with
  | EmptyString => false
  | String _ s' => substring_of sub s'
  end.

(** [k in v] for a string [k]: a key of a dict, an element of a list,
    a substring of a string; a [TypeError] on the other values. *)
Definition contains (v : json) (k : string) : result bool :=
  match v with
  | JObj d => Ok (dict_mem d k)
  | JArr xs => Ok (existsb (fun x => eq x (JStr k)) xs)
  | JStr s => Ok (substring_of k s)
  | _ => Err TypeError
  end.

(** [v[k]] for a string [k]: only a dict can be indexed by a string. *)
Definition getitem (v : json) (k : string) : result json :=
  match v with
  | JObj d =>
      match dict_get d k with
      | Some x => Ok x
      | None => Err (KeyError k)
      end
  | _ => Err TypeError
  end.

(** [v[k] = x] for a string [k]. *)
Definition setitem (v : json) (k : string) (x : json) : result json :=
  match v with
  | JObj d => Ok (JObj (dict_set d k x))
  | _ => Err TypeError
  end.

(** [iter(v)]: the elements of a list, the keys of a dict, the
    characters of a string. *)
Definition iter (v : json) : result (list json) :=
  match v with
  | JArr xs => Ok xs
  | JObj d => Ok (map (fun kv => JStr (fst kv)) d)
  | JStr s =>
      Ok (map (fun c => JStr (String c EmptyString)) (String.list_ascii_of_string s))
  | _ => Err TypeError
  end.

(** [x in s] for a [set] (or the keys of a [dict]) [s]: the element is
    hashed first, which fails on containers. *)
Definition set_mem (s : list json) (x : json) : result bool :=
  if hashable x then Ok (existsb (eq x) s) else Err TypeError.

End Py.

(** ** Values of the Python runtime *)

(** A [float]: the exact value of a finite one stands for the double
    nearest to it. *)
Inductive pyfloat : Type :=
| Finite (q : Q)
| Infinite (negative : bool)
| NaN.

(** A [datetime.datetime].  [tzinfo] is [None] for a naive value and
    otherwise holds the result of [tzinfo.utcoffset(value)]: [None], or
    an offset in microseconds. *)
Record datetime : Type := {
  year : nat; month : nat; day : nat;
  hour : nat; minute : nat; second : nat;
  tzinfo : option (option Z)
}.

(** The values a caller can pass as API parameters, as far as
    [_prepare_call] tells them apart. *)
Inductive pyval : Type :=
| VNone
| VBool (b : bool)
| VInt (n : Z)
| VStr (s : string)
| VDatetime (d : datetime)
| VSeq (str : string) (items : list pyval) (* an iterable that is no [str] and no [dict]; [str] is its [str()] *)
| VDict (str : string) (items : list (string * pyval)) (* a [dict] with [str] keys *)
| VObject (str : string).                   (* any other object, known by its [str()] *)

Module Builtins.

Definition code (c : ascii) : N := Ascii.N_of_ascii c.

Definition is_digit (c : ascii) : bool := (48 <=? code c)%N && (code c <=? 57)%N.

Definition digit_value (c : ascii) : Z := Z.of_N (code c) - 48.

(** The characters [str.strip()] removes, among the code points below 256. *)
Definition is_space (c : ascii) : bool :=
  let n := code c in
  ((9 <=? n) && (n <=? 13) || (28 <=? n) && (n <=? 32) || (n =? 133) || (n =? 160))%N.

Definition to_lower (c : ascii) : ascii :=
  let n := code c in
  if ((65 <=? n) && (n <=? 90))%N then Ascii.ascii_of_N (n + 32) else c.

Definition lower (s : string) : string :=
  String.string_of_list_ascii (map to_lower (String.list_ascii_of_string s)).

(** *** [float(s)] for a string *)

(** [("_"? digit)*], after a first digit. *)
Fixpoint more_digits (l : list ascii) (acc : list Z) : list Z * list ascii :=
  match l with
  | c :: l' =>
      if is_digit c then more_digits l' (acc ++ [digit_value c])
      else if Ascii.eqb c "_"%char then
        match l' with
        | c2 :: l'' =>
            if is_digit c2 then more_digits l'' (acc ++ [digit_value c2])
            else (acc, l)
        | [] => (acc, l)
        end
      else (acc, l)
  | [] => (acc, [])
  end.

(** [digitpart ::= digit ("_"? digit)*] *)
Definition digitpart (l : list ascii) : option (list Z * list ascii) :=
  match l with
  | c :: l' => if is_digit c then Some (more_digits l' [digit_value c]) else None
  | [] => None
  end.

Definition opt_digitpart (l : list ascii) : list Z * list ascii :=
  match digitpart l with
  | Some r => r
  | None => ([], l)
  end.

Definition number_of_digits (ds : list Z) : Z :=
  fold_left (fun acc d => 10 * acc + d) ds 0.

Definition sign (l : list ascii) : bool * list ascii :=
  match l with
  | c :: l' =>
      if Ascii.eqb c "-"%char then (true, l')
      else if Ascii.eqb c "+"%char then (false, l')
      else (false, l)
  | [] => (false, [])
  end.

(** [exponent ::= ("e" | "E") [sign] digitpart], or nothing. *)
Definition exponent (l : list ascii) : option Z :=
  match l with
  | [] => Some 0
  | c :: l' =>
      if Ascii.eqb (to_lower c) "e"%char then
        let '(neg, l'') := sign l' in
        match digitpart l'' with
        | Some (ds, []) =>
            Some (if neg then - number_of_digits ds else number_of_digits ds)
        | _ => None
        end
      else None
  end.

(** The doubles end below [2^1024 - 2^970]: from there on the nearest
    double is an infinity. *)
Definition round_overflow (q : Q) : pyfloat :=
  if Qle_bool (inject_Z (2 ^ 1024 - 2 ^ 970)) (Qabs q)
  then Infinite (Qle_bool q 0)
  else Finite q.

Definition scale (m e : Z) : Q :=
  if (0 <=? e)%Z then inject_Z (m * 10 ^ e) else Qmake m (Z.to_pos (10 ^ (- e))).

(** [floatnumber ::= ([digitpart] "." digitpart | digitpart ["."]) [exponent]] *)
Definition floatnumber (l : list ascii) : option Q :=
  let '(ip, l1) := opt_digitpart l in
  let '(dot, l2) :=
    match l1 with
    | c :: l' => if Ascii.eqb c "."%char then (true, l') else (false, l1)
    | [] => (false, l1)
    end in
  let '(fp, l3) := if dot then opt_digitpart l2 else ([], l2) in
  match ip, fp with
  | [], [] => None
  | _, _ =>
      match exponent l3 with
      | Some e =>
          Some (scale (number_of_digits (ip ++ fp)) (e - Z.of_nat (length fp)))
      | None => None
      end
  end.

Definition strip (l : list ascii) : list ascii :=
  let drop := fix drop (l : list ascii) : list ascii :=
    match l with
    | c :: l' => if is_space c then drop l' else l
    | [] => []
    end in
  rev (drop (rev (drop l))).

(** [float(s)]: [None] stands for the [ValueError] Python raises on a
    string that is no number. *)
Definition float_of_string (s : string) : option pyfloat :=
  let '(neg, l) := sign (strip (String.list_ascii_of_string s)) in
  let word := String.string_of_list_ascii (map to_lower l) in
  if String.eqb word "inf" || String.eqb word "infinity" then Some (Infinite neg)
  else if String.eqb word "nan" then Some NaN
  else
    match floatnumber l with
    | Some q => Some (round_overflow (if neg then Qopp q else q))
    | None => None
    end.

Definition float_of_int (n : Z) : pyfloat := round_overflow (inject_Z n).

(** *** The double that a [Finite] stands for *)

Definition pow2 (e : Z) : Q :=
  if (0 <=? e)%Z then inject_Z (2 ^ e) else Qmake 1 (Z.to_pos (2 ^ (- e))).

Definition round_half_even (x : Q) : Z :=
  let f := Qfloor x in
  match Qcompare (x - inject_Z f) (1 # 2) with
  | Lt => f
  | Gt => (f + 1)%Z
  | Eq => if Z.even f then f else (f + 1)%Z
  end.

(** The double nearest to [q], ties to even, for [q] below the
    overflow threshold: 53 bits, and 1074 bits after the point for the
    numbers that are not normal. *)
Definition double (q : Q) : Q :=
  let a := Qabs q in
  if Qeq_bool a 0 then 0%Q
  else
    let e0 := (Z.log2 (Qnum a) - Z.log2 (Zpos (Qden a)))%Z in
    let e := if Qle_bool (pow2 e0) a then e0 else (e0 - 1)%Z in
    let u := Z.max (e - 52) (-1074) in
    let r := (inject_Z (round_half_even (a / pow2 u)) * pow2 u)%Q in
    if Qle_bool 0 q then r else Qopp r.

(** Truth value of a number. *)
Definition truthy (x : pyfloat) : bool :=
  match x with
  | Finite q => negb (Qeq_bool (double q) 0)
  | _ => true
  end.

End Builtins.

(** [time.sleep(seconds)], but for the waiting: the exception it raises
    for a duration it does not take.  The duration is turned into
    nanoseconds, rounded away from zero, which must fit 64 bits (2^63
    itself passes the test and wraps to a negative number), and must not
    be negative.  A sleep of more than 10^9 seconds is not embedded
    beyond this: it takes decades, and the operating system may refuse
    it with [OSError]. *)
Module Time.

Definition nanoseconds (q : Q) : Z :=
  let d := Builtins.double (Builtins.double q * inject_Z (10 ^ 9)) in
  if Qle_bool 0 d then Qceiling d else Qfloor d.

Definition sleep (seconds : pyfloat) : result unit :=
  match seconds with
  | NaN => Err ValueError
  | Infinite _ => Err OverflowError
  | Finite q =>
      let ns := nanoseconds q in
      if ((ns <? - 2 ^ 63) || (2 ^ 63 <? ns))%Z then Err OverflowError
      else if ((ns <? 0) || (ns =? 2 ^ 63))%Z then Err ValueError
      else Ok tt
  end.

End Time.

Module Repr.
Import Builtins.

Definition hex_digit (n : N) : ascii :=
  Ascii.ascii_of_N (if (n <? 10)%N then 48 + n else 87 + n).

Definition hex2 (n : N) : string :=
  String (hex_digit (n / 16)) (String (hex_digit (n mod 16)) EmptyString).

(** [str.isprintable()] of one code point below 256. *)
Definition printable (c : ascii) : bool :=
  let n := code c in
  ((32 <=? n) && (n <? 127) || (161 <=? n) && negb (n =? 173))%N.

Definition has_char (c : ascii) (s : string) : bool :=
  existsb (Ascii.eqb c) (String.list_ascii_of_string s).

Definition double_quote : ascii := Ascii.ascii_of_N 34.

Definition escape (quote c : ascii) : string :=
  if Ascii.eqb c quote || Ascii.eqb c "\"%char then String "\"%char (String c EmptyString)
  else if (code c =? 9)%N then "\t"
  else if (code c =? 10)%N then "\n"
  else if (code c =? 13)%N then "\r"
  else if printable c then String c EmptyString
  else "\x" ++ hex2 (code c).

(** [repr(s)] of a string. *)
Definition of_string (s : string) : string :=
  let quote : ascii :=
    if has_char "'"%char s && negb (has_char double_quote s)
    then double_quote else "'"%char in
  String quote
    (String.concat EmptyString (map (escape quote) (String.list_ascii_of_string s))
     ++ String quote EmptyString).

(** [repr(v)] of a decoded JSON value. *)
Fixpoint of_json (v : json) : string :=
  match v with
  | JNull => "None"
  | JBool b => if b then "True" else "False"
  | JInt n => pretty n
  | JStr s => of_string s
  | JArr xs => "[" ++ String.concat ", " (map of_json xs) ++ "]"
  | JObj d =>
      "{" ++ String.concat ", "
               (map (fun kv => of_string (fst kv) ++ ": " ++ of_json (snd kv)) d)
          ++ "}"
  end.

End Repr.

Local Open Scope list_scope.

(** ** The client and what it does to the world *)

(** [logging.DEBUG], [logging.INFO] and [logging.WARNING]. *)
Inductive level : Type := DEBUG | INFO | WARNING.

Inductive http_method : Type := GET | POST.

(** The attributes of a [Site] that the call path reads.  [logger] is
    [self.logger.isEnabledFor].  The client is taken with no deferred
    login pending ([_loginOnDemand] is [False], as the constructor leaves
    it) and with no [json_object_hook]. *)
Record Site : Type := {
  logger : level -> bool;
  no_ssl : bool;
  maxlag : option Z;
  auto_post_min_size : Z;
  retry_on_lag_error : Z;
  retry_on_connection_error : Z;
  retry_after_conn : pyfloat;
  pre_request_delay : pyfloat
}.

(** A client as [__init__] leaves it, with a logger at the level
    [logging.INFO]. *)
Definition default_site : Site := {|
  logger := fun lvl => match lvl with DEBUG => false | _ => true end;
  no_ssl := false;
  maxlag := Some 30%Z;
  auto_post_min_size := 2000;
  retry_on_lag_error := 50;
  retry_on_connection_error := 10;
  retry_after_conn := Finite 5;
  pre_request_delay := Finite 0
|}.

(** [request_kw] as [_prepare_call] returns it.  [payload] goes under
    the key ['data'] when the method is POST and under ['params']
    otherwise; [extras] is the caller's [EXTRAS] dict, as it was
    passed. *)
Record request_kw : Type := {
  force_ssl : bool;
  extras : option pyval;
  payload : gmap string pyval
}.

(** The three [time.sleep] calls of [__call__]: lines 133, 145 and 177. *)
Inductive pause : Type := Pacing | ConnBackoff | LagBackoff.

Inductive event : Type :=
| Sleep (why : pause) (seconds : pyfloat)
| Request (method : http_method) (kw : request_kw)
| Log (lvl : level) (text : string)
| Yield (v : json).

(** How a computation ends: with a value, with an exception, or waiting
    for an answer the transport script does not hold. *)
Inductive outcome (A : Type) : Type :=
| Done (a : A)
| Raised (e : exn)
| Pending.
Arguments Done {A} a.
Arguments Raised {A} e.
Arguments Pending {A}.

(** A computation: the events it emits, in order, then its outcome. *)
Definition M (A : Type) : Type := list event * outcome A.

Definition ret {A} (a : A) : M A := ([], Done a).
Definition raise {A} (e : exn) : M A := ([], Raised e).
Definition emit (ev : event) : M unit := ([ev], Done tt).
Definition bind {A B} (m : M A) (f : A -> M B) : M B :=
  match m with
  | (evs, Done a) => let '(evs', o) := f a in (evs ++ evs', o)
  | (evs, Raised e) => (evs, Raised e)
  | (evs, Pending) => (evs, Pending)
  end.
Definition lift {A} (r : result A) : M A :=
  match r with
  | Ok a => ret a
  | Err e => raise e
  end.

#[global] Instance M_ret : MRet M := @ret.
#[global] Instance M_bind : MBind M := fun A B f m => bind m f.

(** A logger method emits its record when its own level is enabled. *)
Definition log (site : Site) (lvl : level) (text : string) : M unit :=
  if logger site lvl then emit (Log lvl text) else ret tt.

Definition sleep (why : pause) (seconds : pyfloat) : M unit :=
  lift (Time.sleep seconds);; emit (Sleep why seconds).

Definition sleeps (why : pause) (evs : list event) : list pyfloat :=
  omap (fun ev =>
          match ev with
          | Sleep w d =>
              match w, why with
              | Pacing, Pacing | ConnBackoff, ConnBackoff
              | LagBackoff, LagBackoff => Some d
              | _, _ => None
              end
          | _ => None
          end) evs.

Definition yields (evs : list event) : list json :=
  omap (fun ev => match ev with Yield v => Some v | _ => None end) evs.

Definition requests (evs : list event) : list (http_method * request_kw) :=
  omap (fun ev => match ev with Request m kw => Some (m, kw) | _ => None end) evs.

(** ** [Site._prepare_call] *)

Module Datetime.

Definition zero_pad (width : nat) (s : string) : string :=
  (String.string_of_list_ascii (repeat "0"%char (width - String.length s)) ++ s)%string.

Definition pad2 (n : nat) : string := zero_pad 2 (pretty n).

(** [value.strftime('%Y-%m-%dT%H:%M:%SZ')].  The C library prints the
    year as it is, with no padding (on Linux; [str(value)] below pads it
    to four digits everywhere). *)
Definition strftime (d : datetime) : string :=
  String.concat EmptyString
    [pretty (year d); "-"; pad2 (month d); "-"; pad2 (day d); "T";
     pad2 (hour d); ":"; pad2 (minute d); ":"; pad2 (second d); "Z"].

(** [value.tzinfo is not None and value.tzinfo.utcoffset(value)]: a
    [timedelta] is true when it is not zero. *)
Definition non_utc (d : datetime) : bool :=
  match tzinfo d with
  | Some (Some offset) => negb (offset =? 0)%Z
  | Some None | None => false
  end.

(** The UTC offset as [str(value)] prints it. *)
Definition offset_suffix (offset : Z) : string :=
  let a := Z.abs offset in
  let us := (a mod 1000000)%Z in
  let s := (a / 1000000)%Z in
  let two (n : Z) := zero_pad 2 (pretty n) in
  String.concat EmptyString
    [if (offset <? 0)%Z then "-" else "+";
     two (s / 3600)%Z; ":"; two (s / 60 mod 60)%Z;
     if ((s mod 60 =? 0) && (us =? 0))%Z then EmptyString
     else (":" ++ two (s mod 60)%Z)%string;
     if (us =? 0)%Z then EmptyString else ("." ++ zero_pad 6 (pretty us))%string].

(** [str(value)], that is [value.isoformat(' ')]. *)
Definition str (d : datetime) : string :=
  String.concat EmptyString
    [zero_pad 4 (pretty (year d)); "-"; pad2 (month d); "-"; pad2 (day d); " ";
     pad2 (hour d); ":"; pad2 (minute d); ":"; pad2 (second d);
     match tzinfo d with
     | Some (Some offset) => offset_suffix offset
     | _ => EmptyString
     end].

End Datetime.

(** [str(value)] *)
Definition py_str (value : pyval) : string :=
  match value with
  | VNone => "None"
  | VBool b => if b then "True" else "False"
  | VInt n => pretty n
  | VStr s => s
  | VDatetime d => Datetime.str d
  | VSeq str _ => str
  | VDict str _ => str
  | VObject str => str
  end.

(** [len(s.encode('utf-8'))] *)
Definition utf8_len (s : string) : Z :=
  fold_right (fun c n => (if (Builtins.code c <? 128)%N then 1 else 2) + n)%Z 0%Z
    (String.list_ascii_of_string s).

(** The inner function [update_value] (lines 209-221); [None] is
    Python's [None]. *)
Definition update_value (value : pyval) : result (option string) :=
  match value with
  | VNone => Ok None
  | VDatetime d =>
      if Datetime.non_utc d then Err ValueError
      else Ok (Some (Datetime.strftime d))
  | VBool b => Ok (if b then Some "1" else None)
  | _ => Ok (Some (py_str value))
  end.

(** Lines 225-229: every iterable counts as a list, except a [str]; to
    iterate over a [dict] is to iterate over its keys. *)
Definition iterable (val : pyval) : option (list pyval) :=
  match val with
  | VSeq _ items => Some items
  | VDict _ items => Some (map (fun kv => VStr (fst kv)) items)
  | _ => None
  end.

(** ['|'.join(filter(lambda v: v is not None, val))] *)
Definition pipe_join (val : list (option string)) : string :=
  String.concat "|" (omap id val).

(** One round of the loop of lines 223-238, on the item [(k, val)]. *)
Definition normalize_item (kwargs : gmap string pyval) (k : string) (val : pyval)
  : result (gmap string pyval) :=
  match iterable val with
  | Some items =>
      val ← mapM update_value items;
      Ok (<[k := VStr (pipe_join val)]> kwargs)
  | None =>
      val ← update_value val;
      match val with
      | Some s => Ok (<[k := VStr s]> kwargs)
      | None => Ok (delete k kwargs)
      end
  end.

(** [for k, val in list(kwargs.items()): ...] *)
Fixpoint normalize_loop (items : list (string * pyval)) (kwargs : gmap string pyval)
  : result (gmap string pyval) :=
  match items with
  | [] => Ok kwargs
  | (k, val) :: rest =>
      kwargs ← normalize_item kwargs k val;
      normalize_loop rest kwargs
  end.

Definition normalize (kwargs : gmap string pyval) : result (gmap string pyval) :=
  normalize_loop (map_to_list kwargs) kwargs.

Definition has_key {A} (d : gmap string A) (k : string) : bool :=
  match d !! k with
  | Some _ => true
  | None => false
  end.

(** The magic all-caps parameters. *)
Definition magic : list string := ["POST"; "SSL"; "HTTPS"; "EXTRAS"; "NO_LOGIN"].

(** Lines 240-245: the parameters the protocol always carries. *)
Definition inject_defaults (site : Site) (action : string) (kwargs : gmap string pyval)
  : gmap string pyval :=
  let kwargs := <["action" := VStr action]> kwargs in
  let kwargs := <["format" := VStr "json"]> kwargs in
  let kwargs :=
    if has_key kwargs "formatversion" then kwargs
    else <["formatversion" := VInt 2]> kwargs in
  match maxlag site with
  | Some lag =>
      if has_key kwargs "maxlag" then kwargs else <["maxlag" := VInt lag]> kwargs
  | None => kwargs
  end.

(** Lines 248-250 *)
Definition data_size (kwargs : gmap string pyval) : Z :=
  map_fold (fun k v sum => utf8_len k + utf8_len (py_str v) + 2 + sum)%Z 0%Z kwargs.

Definition prepare_call (site : Site) (action : string) (kwargs : gmap string pyval)
  : result (http_method * request_kw) :=
  let method :=
    if has_key kwargs "POST" || String.eqb action "login" || String.eqb action "edit"
    then POST else GET in
  let extras := kwargs !! "EXTRAS" in
  let force_ssl :=
    negb (no_ssl site) &&
    (String.eqb action "login" || has_key kwargs "SSL" || has_key kwargs "HTTPS") in
  (* line 201: [request_kw['force_ssl'] = ...] on what [EXTRAS] holds *)
  match extras with
  | None | Some (VDict _ _) => Ok tt
  | Some _ => Err TypeError
  end;;
  let kwargs := foldr delete kwargs magic in
  kwargs ← normalize kwargs;
  let kwargs := inject_defaults site action kwargs in
  let method := if (auto_post_min_size site <? data_size kwargs)%Z then POST else method in
  Ok (method, {| force_ssl := force_ssl; extras := extras; payload := kwargs |}).

(** ** The transport and [Site.request] *)

(** A [requests.Response]: [json_body] is what [r.json()] returns, [None]
    when [text] is not valid JSON. *)
Record response : Type := {
  status_code : Z;
  headers : list (string * string);
  text : string;
  json_body : option json
}.

(** What [session.request] does with one request: it raises, or it
    returns a response. *)
Inductive answer : Type :=
| Fails (e : exn)
| Responds (r : response).

(** [r.ok]: [raise_for_status()] raises on the statuses from 400 to 599. *)
Definition ok (r : response) : bool :=
  negb ((400 <=? status_code r)%Z && (status_code r <? 600)%Z).

(** [r.headers.get(name)] on the case-insensitive dict of the headers. *)
Fixpoint headers_get (hs : list (string * string)) (name : string) : option string :=
  match hs with
  | [] => None
  | (k, v) :: hs' =>
      if String.eqb (Builtins.lower k) (Builtins.lower name) then Some v
      else headers_get hs' name
  end.

(** Lines 426-440, on the answer [a] of the session. *)
Definition request (site : Site) (method : http_method) (kw : request_kw) (a : answer)
  : M response :=
  emit (Request method kw);;
  match a with
  | Fails e => raise e
  | Responds r =>
      if negb (ok r) then
        match json_body r with
        | Some body =>
            raise (ApiError "Call failed"
                     (JObj [("status_code", JInt (status_code r)); ("json_body", body)]))
        | None =>
            raise (ApiError "Call failed"
                     (JObj [("status_code", JInt (status_code r));
                            ("text_body", JStr (text r))]))
        end
      else
        log site DEBUG "server-response";;
        ret r
  end.

(** [Site.parse_json] on a response. *)
Definition parse_json (r : response) : M json :=
  match json_body r with
  | Some data => ret data
  | None => raise JSONDecodeError
  end.

(** ** [Site.__call__] *)

(** How one round of the [while True] loop ends. *)
Inductive control : Type :=
| Break (data : json)
| Continue.

(** The [except ConnectionError] handler, lines 137-146. *)
Definition on_connection_error (site : Site) (try_count_conn : Z) : M control :=
  let no_retry_conn :=
    ((0 <=? retry_on_connection_error site)
     && (retry_on_connection_error site <? try_count_conn))%Z in
  (if logger site (if no_retry_conn then WARNING else INFO) then
     if no_retry_conn then
       log site WARNING "ConnectionError exhausted retries";;
       raise ConnectionError
     else
       log site WARNING "ConnectionError, retrying in {self.retry_after_conn}s"
   else ret tt);;
  sleep ConnBackoff (retry_after_conn site);;
  ret Continue.

(** [float(response.headers.get('Retry-After', 5))] *)
Definition retry_after_of (r : response) : result pyfloat :=
  match headers_get (headers r) "Retry-After" with
  | Some value =>
      match Builtins.float_of_string value with
      | Some seconds => Ok seconds
      | None => Err ValueError
      end
  | None => Ok (Builtins.float_of_int 5)
  end.

(** Lines 147-177, on a response that [request] returned. *)
Definition on_response (site : Site) (try_count : Z) (r : response) : M control :=
  data ← parse_json r;
  match error ← Py.getitem data "error"; Py.getitem error "code" with
  | Err (KeyError _) => ret (Break data)
  | Err e => raise e
  | Ok code =>
      if negb (Py.eq code (JStr "maxlag")) then ret (Break data)
      else
        retry_after ← lift (retry_after_of r);
        let no_retry :=
          ((0 <=? retry_on_lag_error site) && (retry_on_lag_error site <? try_count))%Z in
        log site (if no_retry then WARNING else INFO) "maxlag-retry";;
        if no_retry then ret (Break data)
        else
          sleep LagBackoff retry_after;;
          ret Continue
  end.

(** One round of the loop, lines 132-177, on the answer of the session. *)
Definition attempt (site : Site) (method : http_method) (kw : request_kw)
    (try_count try_count_conn : Z) (a : answer) : M control :=
  (if Builtins.truthy (pre_request_delay site)
   then sleep Pacing (pre_request_delay site) else ret tt);;
  match request site method kw a with
  | (evs, Raised ConnectionError) =>
      (evs, Done tt);; on_connection_error site try_count_conn
  | (evs, Raised e) => (evs, Raised e)
  | (evs, Pending) => (evs, Pending)
  | (evs, Done r) => (evs, Done tt);; on_response site try_count r
  end.

(** Building the message of the server's warnings, lines 183-186: the
    text is not kept, the ways it can fail are. *)
Definition warnings_message (warnings : json) : result unit :=
  match warnings with
  | JObj items =>
      mapM (fun vv : string * json =>
              has ← Py.contains (snd vv) "warnings";
              if has : bool then Py.getitem (snd vv) "warnings" else Ok (snd vv)) items;;
      Ok tt
  | _ => Err AttributeError
  end.

(** Lines 179-189: the decoded body becomes the result or an [ApiError]. *)
Definition resolve (site : Site) (data : json) : M json :=
  has_error ← lift (Py.contains data "error");
  if has_error : bool then
    error ← lift (Py.getitem data "error");
    raise (ApiError "Server API Error" error)
  else
    has_warnings ← lift (Py.contains data "warnings");
    (if (has_warnings : bool) && logger site WARNING then
       warnings ← lift (Py.getitem data "warnings");
       lift (warnings_message warnings);;
       log site WARNING "server-warnings"
     else ret tt);;
    ret data.

(** The [while True] loop of lines 128-177 followed by lines 179-189, on
    the script of the answers of the session.  The part of the script
    that was not used is returned.  When the script is used up the
    request is sent and its answer does not come. *)
Fixpoint call_loop (site : Site) (method : http_method) (kw : request_kw)
    (try_count try_count_conn : Z) (script : list answer) : M json * list answer :=
  let try_count := (try_count + 1)%Z in
  let try_count_conn := (try_count_conn + 1)%Z in
  match script with
  | [] =>
      ((if Builtins.truthy (pre_request_delay site)
        then sleep Pacing (pre_request_delay site) else ret tt);;
       emit (Request method kw);;
       ([], Pending), [])
  | a :: rest =>
      match attempt site method kw try_count try_count_conn a with
      | (evs, Done (Break data)) => ((evs, Done tt);; resolve site data, rest)
      | (evs, Done Continue) =>
          let '(m, rest') := call_loop site method kw try_count try_count_conn rest in
          ((evs, Done tt);; m, rest')
      | (evs, Raised e) => ((evs, Raised e), rest)
      | (evs, Pending) => ((evs, Pending), rest)
      end
  end.

(** [f(action, **kwargs)], for a method [f(self, action, **kwargs)]: a
    keyword that names a parameter of the method cannot be bound. *)
Definition binds (kwargs : gmap string pyval) : bool :=
  negb (has_key kwargs "action" || has_key kwargs "self").

(** [site(action, **kwargs)] *)
Definition call (site : Site) (action : string) (kwargs : gmap string pyval)
    (script : list answer) : M json * list answer :=
  if negb (binds kwargs) then (raise TypeError, script)
  else
    match prepare_call site action kwargs with
    | Err e => (raise e, script)
    | Ok (method, kw) => call_loop site method kw 0 0 script
    end.

(** ** [Site.iterate] *)

(** A decoded JSON value used as a parameter of the next request. *)
Fixpoint of_json (v : json) : pyval :=
  match v with
  | JNull => VNone
  | JBool b => VBool b
  | JInt n => VInt n
  | JStr s => VStr s
  | JArr xs => VSeq (Repr.of_json v) (map of_json xs)
  | JObj d => VDict (Repr.of_json v) (map (fun kv => (fst kv, of_json (snd kv))) d)
  end.

(** The key and the value that [dict.update] takes from an element of a
    sequence: the element is to be a sequence of two (a list, a string
    of two characters, a dict with two keys). *)
Definition pair_of (x : json) : result (json * json) :=
  match x with
  | JArr [k; v] => Ok (k, v)
  | JArr _ => Err ValueError
  | JStr s =>
      match String.list_ascii_of_string s with
      | [a; b] => Ok (JStr (String a EmptyString), JStr (String b EmptyString))
      | _ => Err ValueError
      end
  | JObj [(k1, _); (k2, _)] => Ok (JStr k1, JStr k2)
  | JObj _ => Err ValueError
  | _ => Err TypeError
  end.

(** [req.update(d)] over a sequence of pairs.  A key that is no string
    is taken ([keyed] tells that there was one), and makes the next
    [self(action, **req)] raise [TypeError], before anything else
    happens: that is raised here, once the sequence is through. *)
Fixpoint update_pairs (req : gmap string pyval) (keyed : bool) (xs : list json)
  : result (gmap string pyval) :=
  match xs with
  | [] => if keyed then Err TypeError else Ok req
  | x :: xs =>
      '(k, v) ← pair_of x;
      match k with
      | JStr s => update_pairs (<[s := of_json v]> req) keyed xs
      | JArr _ | JObj _ => Err TypeError
      | _ => update_pairs req true xs
      end
  end.

(** [req.update(d)] for a decoded value [d]: a mapping, or a sequence of
    pairs. *)
Definition dict_update (req : gmap string pyval) (d : json) : result (gmap string pyval) :=
  match d with
  | JObj items => Ok (foldl (fun req kv => <[fst kv := of_json (snd kv)]> req) req items)
  | JArr xs => update_pairs req false xs
  | JStr s => if String.eqb s EmptyString then Ok req else Err ValueError
  | _ => Err TypeError
  end.

(** What the consumer of the generator sends back after each page: it
    sees the pages yielded so far, the last one last, and answers [None]
    (a plain [next()]) or a dict of adjustments. *)
Definition feedback : Type := list json -> option (gmap string pyval).

(** Lines 316-326: what follows a call that returned [result].  The value
    is [None] at the [break], and otherwise the next request with the
    pages seen so far. *)
Definition after_call (action : string) (kwargs : gmap string pyval) (send : feedback)
    (seen : list json) (result : json)
  : M (option (gmap string pyval * list json)) :=
  '(adjustments, seen) ←
    (has ← lift (Py.contains result action);
     if has : bool then
       page ← lift (Py.getitem result action);
       emit (Yield page);;
       ret (send (seen ++ [page]), seen ++ [page])
     else ret (None, seen));
  more ← lift (Py.contains result "continue");
  if negb more then ret None
  else
    continue ← lift (Py.getitem result "continue");
    req ← lift (dict_update kwargs continue);
    let req :=
      match adjustments with
      | Some adjustments => adjustments ∪ req
      | None => req
      end in
    ret (Some (req, seen)).

(** The [while True] loop of lines 314-326.  Every round that goes on
    uses up an answer of the script, so [fuel] rounds more than the
    script is long are never needed. *)
Fixpoint iterate_loop (fuel : nat) (site : Site) (action : string)
    (kwargs : gmap string pyval) (send : feedback) (seen : list json)
    (req : gmap string pyval) (script : list answer) : M unit * list answer :=
  match fuel with
  | O => (([], Pending), script)
  | S fuel =>
      let '(m, rest) := call site action req script in
      match m ≫= after_call action kwargs send seen with
      | (evs, Done None) => ((evs, Done tt), rest)
      | (evs, Done (Some (req, seen))) =>
          let '(m', rest') := iterate_loop fuel site action kwargs send seen req rest in
          ((evs, Done tt);; m', rest')
      | (evs, Raised e) => ((evs, Raised e), rest)
      | (evs, Pending) => ((evs, Pending), rest)
      end
  end.

(** The generator [site.iterate] on [action] and [kwargs], run to its end
    against the consumer [send] and the script of the session. *)
Definition iterate (site : Site) (action : string) (kwargs : gmap string pyval)
    (send : feedback) (script : list answer) : M unit * list answer :=
  if negb (binds kwargs) then (raise TypeError, script)
  else if has_key kwargs "rawcontinue" then (raise ValueError, script)
  else if has_key kwargs "formatversion" then (raise ValueError, script)
  else
    let kwargs :=
      if has_key kwargs "continue" then kwargs
      else <["continue" := VStr EmptyString]> kwargs in
    let kwargs := <["formatversion" := VInt 2]> kwargs in
    iterate_loop (S (length script)) site action kwargs send [] kwargs script.

(** [site.query] *)
Definition query (site : Site) (kwargs : gmap string pyval) (send : feedback)
    (script : list answer) : M unit * list answer :=
  iterate site "query" kwargs send script.

(** ** [Site._merge_page] *)

(** [x + val] for a list [val]. *)
Definition list_add (x : json) (val : list json) : result json :=
  match x with
  | JArr xs => Ok (JArr (xs ++ val))
  | _ => Err TypeError
  end.

(** [self._merge_page(a, b)]: the value is [a] as the call leaves it.
    [b] is a dict whenever the method is called; the loop over another
    value is not embedded. *)
Fixpoint merge_page (a b : json) {struct b} : result json :=
  match b with
  | JObj items =>
      (fix loop (items : list (string * json)) (a : json) {struct items} : result json :=
         match items with
         | [] => Ok a
         | (k, val) :: rest =>
             has ← Py.contains a k;
             a ←
               (if has : bool then
                  match val with
                  | JObj _ =>
                      old ← Py.getitem a k;
                      merged ← merge_page old val;
                      Py.setitem a k merged
                  | JArr xs =>
                      old ← Py.getitem a k;
                      sum ← list_add old xs;
                      Py.setitem a k sum
                  | _ => Py.setitem a k val
                  end
                else Py.setitem a k val);
             loop rest a
         end) items a
  | _ => Err TypeError
  end.

(** ** [Site.query_pages] *)

(** A dict whose keys are decoded values, in insertion order. *)
Module PageDict.

Fixpoint get (d : list (json * json)) (k : json) : option json :=
  match d with
  | [] => None
  | (k', v) :: d' => if Py.eq k' k then Some v else get d' k
  end.

Fixpoint set (d : list (json * json)) (k v : json) : list (json * json) :=
  match d with
  | [] => [(k, v)]
  | (k', v') :: d' => if Py.eq k' k then (k', v) :: d' else (k', v') :: set d' k v
  end.

Fixpoint del (d : list (json * json)) (k : json) : list (json * json) :=
  match d with
  | [] => []
  | (k', v) :: d' => if Py.eq k' k then d' else (k', v) :: del d' k
  end.

End PageDict.

(** The local variables of [query_pages] while the pages of one result
    are processed. *)
Record buckets : Type := {
  incomplete : list (json * json);
  new_incomplete : list (json * json);
  modified : list json;
  missing : list json
}.

(** The body of the loop over [result['pages']], lines 348-368. *)
Definition process_page (b : buckets) (page : json) : M buckets :=
  is_missing ← lift (Py.contains page "missing");
  if is_missing : bool then
    title ← lift (Py.getitem page "title");
    seen ← lift (Py.set_mem (missing b) title);
    if seen : bool then ret b
    else
      emit (Yield page);;
      ret {| incomplete := incomplete b; new_incomplete := new_incomplete b;
             modified := modified b; missing := missing b ++ [title] |}
  else
    page_id ← lift (Py.getitem page "pageid");
    is_modified ← lift (Py.set_mem (modified b) page_id);
    if is_modified : bool then ret b
    else
      match PageDict.get (incomplete b) page_id with
      | Some p =>
          let incomplete := PageDict.del (incomplete b) page_id in
          has_rev ← lift (Py.contains page "lastrevid");
          changed ←
            (if has_rev : bool then
               old ← lift (Py.getitem p "lastrevid");
               new ← lift (Py.getitem page "lastrevid");
               ret (negb (Py.eq old new))
             else ret false);
          if changed : bool then
            ret {| incomplete := incomplete; new_incomplete := new_incomplete b;
                   modified := modified b ++ [page_id]; missing := missing b |}
          else
            p ← lift (merge_page p page);
            ret {| incomplete := incomplete;
                   new_incomplete := PageDict.set (new_incomplete b) page_id p;
                   modified := modified b; missing := missing b |}
      | None =>
          ret {| incomplete := incomplete b;
                 new_incomplete := PageDict.set (new_incomplete b) page_id page;
                 modified := modified b; missing := missing b |}
      end.

Fixpoint process_pages (b : buckets) (pages : list json) : M buckets :=
  match pages with
  | [] => ret b
  | page :: rest => b ← process_page b page; process_pages b rest
  end.

(** [for page_id, page in incomplete.items(): yield page] *)
Definition flush (d : list (json * json)) : M unit :=
  (map (fun kv => Yield (snd kv)) d, Done tt).

(** The variables [incomplete], [modified] and [missing] between two
    results. *)
Record pages_state : Type := {
  pending_pages : list (json * json);
  modified_ids : list json;
  missing_titles : list json
}.

Definition initial : pages_state :=
  {| pending_pages := []; modified_ids := []; missing_titles := [] |}.

(** The body of the loop over the results of the query, lines 343-374. *)
Definition process_result (st : pages_state) (result : json) : M pages_state :=
  has ← lift (Py.contains result "pages");
  if negb has then raise (ApiError "Missing pages element in query result" result)
  else
    pages ← lift (Py.getitem result "pages");
    pages ← lift (Py.iter pages);
    b ← process_pages {| incomplete := pending_pages st; new_incomplete := [];
                         modified := modified_ids st; missing := missing_titles st |}
                      pages;
    flush (incomplete b);;
    ret {| pending_pages := new_incomplete b; modified_ids := modified b;
           missing_titles := missing b |}.

(** How the runtime lists a set: [list(modified)] holds the elements of
    the set in an order of its own, which is [listing] of the elements
    in the order they were added. *)
Definition listing : Type := list json -> list json.

(** A listing holds the elements it is given, each as often. *)
Definition lists_the_set (list_of : listing) : Prop :=
  forall ids, list_of ids ≡ₚ ids.

(** Lines 376-382, once the query is exhausted. *)
Definition finish (list_of : listing) (st : pages_state) : M unit :=
  flush (pending_pages st);;
  match modified_ids st with
  | [] => ret tt
  | ids => raise (ApiPagesModifiedError (list_of ids))
  end.

(** The generator [query_pages] driven by what the generator [query]
    does: each of its yields is a result to process, its other events
    pass. *)
Fixpoint drive (st : pages_state) (evs : list event) : M pages_state :=
  match evs with
  | [] => ret st
  | Yield result :: evs => st ← process_result st result; drive st evs
  | ev :: evs => emit ev;; drive st evs
  end.

(** When [query] ends with an exception, so does [query_pages]; when it
    is exhausted, lines 376-382 follow. *)
Definition reconcile (list_of : listing) (st : pages_state) (evs : list event)
    (out : outcome unit) : M unit :=
  st ← drive st evs;
  match out with
  | Done _ => finish list_of st
  | Raised e => raise e
  | Pending => ([], Pending)
  end.

(** [site.query_pages] on [kwargs], run to its end against the script of
    the session. *)
Definition query_pages (list_of : listing) (site : Site) (kwargs : gmap string pyval)
    (script : list answer) : M unit :=
  let '((evs, out), _) := query site kwargs (fun _ => None) script in
  reconcile list_of initial evs out.

(** * Vocabulary of the properties *)

(** The events of the optional pause before a request, line 133. *)
Definition pacing (site : Site) : list event :=
  if Builtins.truthy (pre_request_delay site)
  then [Sleep Pacing (pre_request_delay site)] else [].

(** The events of a logger method. *)
Definition logged (site : Site) (lvl : level) (text : string) : list event :=
  if logger site lvl then [Log lvl text] else [].

(** What an [ApiError] of [request] carries: the status code with the
    decoded body, or with the text when the body is not valid JSON. *)
Definition call_failed (r : response) : exn :=
  ApiError "Call failed"
    (JObj [("status_code", JInt (status_code r));
           match json_body r with
           | Some body => ("json_body", body)
           | None => ("text_body", JStr (text r))
           end]).


(** A response that reports [error.code == 'maxlag']: a success status,
    a decoded body whose [error] has the code ['maxlag'], and a
    [Retry-After] header that [float] accepts, or none: [seconds] is the
    back-off it asks for. *)
Definition maxlag_reply (r : response) (error : json) (seconds : pyfloat) : Prop :=
  ok r = true /\
  exists data code,
    json_body r = Some data /\
    Py.getitem data "error" = Ok error /\
    Py.getitem error "code" = Ok code /\
    Py.eq code (JStr "maxlag") = true /\
    retry_after_of r = Ok seconds.

(** The warnings of the body [d] can be logged: when the logger takes
    warnings and the body holds some, lines 183-186 build their message
    without failing. *)
Definition loggable (site : Site) (d : list (string * json)) : Prop :=
  logger site WARNING = true ->
  forall warnings,
    Py.dict_get d "warnings" = Some warnings -> warnings_message warnings = Ok tt.

(** A successful response: a status that is no error status, and a
    decoded body that is an object [d] with no [error] member, whose
    warnings can be logged. *)
Definition success_reply (site : Site) (r : response) (d : list (string * json)) : Prop :=
  ok r = true /\
  json_body r = Some (JObj d) /\
  Py.dict_mem d "error" = false /\
  loggable site d.

(** A duration that [time.sleep] takes and that ends: a number of
    seconds from 0 to 10^9. *)
Definition brief (seconds : pyfloat) : Prop :=
  exists q, seconds = Finite q /\ (0 <= q)%Q /\ (q <= inject_Z (10 ^ 9))%Q.

(** The pauses of the client are set to durations that [time.sleep]
    takes: the pause before a request (if any) and the back-off after a
    connection failure. *)
Definition paced (site : Site) : Prop :=
  Builtins.truthy (pre_request_delay site) = true -> brief (pre_request_delay site).

Definition steady (site : Site) : Prop :=
  paced site /\ brief (retry_after_conn site).

(** [no_retry] of line 155 and [no_retry_conn] of line 137. *)
Definition exhausted (budget count : Z) : bool :=
  ((0 <=? budget) && (budget <? count))%Z.

(** The events of a round that ends in a maxlag back-off. *)
Definition lag_round (site : Site) (method : http_method) (kw : request_kw)
    (seconds : pyfloat) : list event :=
  (pacing site ++ Request method kw :: logged site DEBUG "server-response")
  ++ logged site INFO "maxlag-retry" ++ [Sleep LagBackoff seconds].

(** A client whose logger drops warnings (a logger set to
    [logging.ERROR]) and which is told not to retry after a connection
    failure. *)
Definition quiet_site : Site := {|
  logger := fun _ => false;
  no_ssl := false;
  maxlag := Some 30%Z;
  auto_post_min_size := 2000;
  retry_on_lag_error := 50;
  retry_on_connection_error := 0;
  retry_after_conn := Finite 5;
  pre_request_delay := Finite 0
|}.

(** A client that does not retry on lag. *)
Definition impatient_site : Site := {|
  logger := logger default_site;
  no_ssl := false;
  maxlag := Some 30%Z;
  auto_post_min_size := 2000;
  retry_on_lag_error := 0;
  retry_on_connection_error := 10;
  retry_after_conn := Finite 5;
  pre_request_delay := Finite 0
|}.

(** A response with the status 200 and the decoded body [body]. *)
Definition reply (hs : list (string * string)) (body : json) : response :=
  {| status_code := 200; headers := hs; text := Repr.of_json body;
     json_body := Some body |}.

(** The body by which the server reports that it lags. *)
Definition maxlag_body : json :=
  JObj [("error",
         JObj [("code", JStr "maxlag");
               ("info", JStr "Waiting for a database server: 7 seconds lagged.");
               ("lag", JInt 7)])].

(** What the loop of lines 223-238 makes of one value: the string that
    replaces it, or [None] when its key is deleted. *)
Definition coerce (val : pyval) : result (option pyval) :=
  match iterable val with
  | Some items =>
      coerced ← mapM update_value items;
      Ok (Some (VStr (pipe_join coerced)))
  | None =>
      coerced ← update_value val;
      Ok (option_map VStr coerced)
  end.

(** The parameters that lines 240-245 set after the loop. *)
Definition protocol_keys : list string := ["action"; "format"; "formatversion"; "maxlag"].

(** A value is in UTC unless it is a [datetime] with an offset other
    than zero. *)
Definition in_utc (v : pyval) : bool :=
  match v with
  | VDatetime d => negb (Datetime.non_utc d)
  | _ => true
  end.

(** A parameter that the loop of lines 223-238 accepts. *)
Definition normalizable (v : pyval) : bool :=
  match v with
  | VSeq _ items => forallb in_utc items
  | _ => in_utc v
  end.

(** The two digits that [strftime] prints for a month, a day, an hour, a
    minute or a second. *)
Definition two_digits (n : nat) : string :=
  if (n <? 10)%nat then "0" ++ pretty n else pretty n.

(** The timestamp of a [datetime] in the format [%Y-%m-%dT%H:%M:%SZ],
    written out: the year as it is, every other field on two digits. *)
Definition timestamp (d : datetime) : string :=
  (pretty (year d) ++ "-" ++ two_digits (month d) ++ "-" ++ two_digits (day d)
   ++ "T" ++ two_digits (hour d) ++ ":" ++ two_digits (minute d) ++ ":"
   ++ two_digits (second d) ++ "Z")%string.

(** What the specification has a value become on the wire: nothing for
    [None] and [False], the marker ['1'] for [True], its timestamp for
    a [datetime], its [str()] for any other value. *)
Definition wire_text (v : pyval) : option string :=
  match v with
  | VNone | VBool false => None
  | VBool true => Some "1"
  | VDatetime d => Some (timestamp d)
  | _ => Some (py_str v)
  end.

(** Lines 205-207: the parameters without the magic ones. *)
Definition strip_magic (kwargs : gmap string pyval) : gmap string pyval :=
  foldr delete kwargs magic.

(** The request that follows a page whose result carried the
    continuation [continue], when the consumer answered [adjustments]. *)
Definition next_request (kwargs : gmap string pyval) (continue : list (string * json))
    (adjustments : option (gmap string pyval)) : gmap string pyval :=
  let req := foldl (fun req kv => <[fst kv := of_json (snd kv)]> req) kwargs continue in
  match adjustments with
  | Some adjustments => adjustments ∪ req
  | None => req
  end.

(** The parameters [iterate] works with: lines 310-313. *)
Definition seeded (kwargs : gmap string pyval) : gmap string pyval :=
  <["formatversion" := VInt 2]>
    (if has_key kwargs "continue" then kwargs
     else <["continue" := VStr EmptyString]> kwargs).

(** The keywords that a call cannot take with its parameters: the names
    of the parameters of [__call__], and [EXTRAS]. *)
Definition reserved_keywords : list string := ["action"; "self"; "EXTRAS"].

(** Parameters that a call takes: no reserved keyword, and values that
    the loop of lines 223-238 accepts. *)
Definition plain (kwargs : gmap string pyval) : Prop :=
  map_Forall (fun _ v => normalizable v = true) kwargs
  /\ forall k, k ∈ reserved_keywords -> kwargs !! k = None.

(** A consumer whose adjustments a call takes. *)
Definition well_behaved (send : feedback) : Prop :=
  forall seen adjustments, send seen = Some adjustments -> plain adjustments.

(** A continuation that a call takes: an object with no reserved
    keyword among its keys. *)
Definition plain_continue (continue : list (string * json)) : Prop :=
  forall k, k ∈ reserved_keywords -> Py.dict_get continue k = None.

(** A response [r] whose status is no error status and whose decoded
    body is the object [d], with no [error] member and with [page] under
    the key of the action. *)
Definition page_reply (action : string) (r : response)
    (d : list (string * json)) (page : json) : Prop :=
  ok r = true /\
  json_body r = Some (JObj d) /\
  Py.dict_mem d "error" = false /\
  Py.dict_get d action = Some page.

(** The merge of one field, as the rule of [_merge_page] has it: [old]
    is what the entity holds under the key, if anything, [new] what the
    incoming fragment holds.  A field the entity lacks is taken over;
    an incoming mapping is merged into the old value; an incoming list
    is appended to an old list; any other incoming value replaces the
    old one.  An incoming list meeting an old value that is no list is
    a type error. *)
Definition merged_value (old : option json) (new : json) : result json :=
  match old with
  | None => Ok new
  | Some old =>
      match new with
      | JObj _ => merge_page old new
      | JArr ys =>
          match old with
          | JArr xs => Ok (JArr (xs ++ ys))
          | _ => Err TypeError
          end
      | _ => Ok new
      end
  end.

(** The loop of [_merge_page] over the members of the incoming
    fragment. *)
Fixpoint merge_members (items : list (string * json)) (a : list (string * json))
  : result (list (string * json)) :=
  match items with
  | [] => Ok a
  | (k, val) :: rest =>
      x ← merged_value (Py.dict_get a k) val;
      merge_members rest (Py.dict_set a k x)
  end.

(** The member names of a decoded object are distinct, as the keys of a
    Python [dict] are. *)
Definition distinct_members (v : json) : Prop :=
  match v with
  | JObj d => NoDup d.*1
  | _ => True
  end.

(** What a hashable value counts as when it is a key: [True] is [1] and
    [False] is [0]. *)
Definition key_of (v : json) : json :=
  match v with
  | JBool b => JInt (if b then 1 else 0)
  | _ => v
  end.

(** The variables of [query_pages] when it starts on a result. *)
Definition start (st : pages_state) : buckets :=
  {| incomplete := pending_pages st; new_incomplete := [];
     modified := modified_ids st; missing := missing_titles st |}.

(** The variables of [query_pages] after the pages of a result. *)
Definition close (b : buckets) : pages_state :=
  {| pending_pages := new_incomplete b; modified_ids := modified b;
     missing_titles := missing b |}.

(** The states of the variables that [query_pages] can reach: it starts
    with everything empty, processes a page, or goes on to the next
    result. *)
Inductive reachable : buckets -> Prop :=
| reachable_start : reachable (start initial)
| reachable_page b page evs b' :
    reachable b -> process_page b page = (evs, Done b') -> reachable b'
| reachable_next b : reachable b -> reachable (start (close b)).

(** The buffered entities, of the last result and of this one. *)
Definition buffered (b : buckets) : list (json * json) :=
  incomplete b ++ new_incomplete b.

(** The entries [l] form a dict, none of whose keys is among the
    modified identifiers [ids]. *)
Definition dict_ok (ids : list json) (l : list (json * json)) : Prop :=
  Forall (fun kv : json * json => Py.hashable (fst kv) = true) l
  /\ NoDup (key_of <$> l.*1)
  /\ forall kv m, kv ∈ l -> m ∈ ids -> key_of (fst kv) <> key_of m.

(** The buffer is a dict, and no identifier is both buffered and
    modified. *)
Definition buckets_inv (b : buckets) : Prop :=
  dict_ok (modified b) (buffered b).

(** Every entry holds, as its [pageid], the identifier it is kept
    under. *)
Definition entities_ok (l : list (json * json)) : Prop :=
  Forall (fun kv : json * json =>
            exists id, Py.getitem (snd kv) "pageid" = Ok id
                       /\ key_of id = key_of (fst kv)) l.

Definition entities_inv (b : buckets) : Prop := entities_ok (buffered b).

(** [y] is not an entity with the identifier [page_id]: it is reported
    missing, or its [pageid] is another one. *)
Definition not_entity (page_id y : json) : Prop :=
  Py.contains y "missing" = Ok true
  \/ exists id, Py.getitem y "pageid" = Ok id /\ Py.eq id page_id = false.

(** Between two results, the buffer is a dict of entities kept under
    their own identifiers, none of which is modified. *)
Definition state_inv (st : pages_state) : Prop :=
  buckets_inv (start st) /\ entities_inv (start st).

(** The pages that a result delivers. *)
Definition pages_of (result : json) : list json :=
  match Py.getitem result "pages" ≫= Py.iter with
  | Ok pages => pages
  | Err _ => []
  end.

(** What [query_pages] does with the pages of a result from the state
    [b] on: lines 347-374. *)
Definition finish_result (b : buckets) (pages : list json) : M pages_state :=
  b ← process_pages b pages;
  flush (incomplete b);;
  ret (close b).

(** A fragment of the page [id] at the revision [rev], with further
    members, and a result of the query that delivers [pages]. *)
Definition fragment (id rev : json) (members : list (string * json)) : json :=
  JObj (("pageid", id) :: ("lastrevid", rev) :: members).

Definition pages_result (pages : list json) : json :=
  JObj [("pages", JArr pages)].

(** The member names that [query_pages] reads. *)
Definition reserved : list string := ["missing"; "pageid"; "lastrevid"].

(** A successful response to a query: its body holds the result and,
    when more is to come, a continuation. *)
Definition query_reply (continue : option json) (result : json) : response :=
  reply []
    (JObj (match continue with
           | Some c => [("continue", c)]
           | None => []
           end ++ [("query", result)])).

(** What the consumer of a generator sees: the values it yields and how
    it ends. *)
Definition query_pages_outcome (m : M unit) : list json * outcome unit :=
  (yields (fst m), snd m).

(** ** Concrete inputs *)

(** The [request_kw] of a call with no parameter of its own. *)
Definition plain_kw : request_kw :=
  {| force_ssl := false; extras := None;
     payload := {[ "action" := VStr "query"; "format" := VStr "json";
                   "formatversion" := VInt 2; "maxlag" := VInt 30 ]} |}.

(** A response with an error status and a body that is not JSON. *)
Definition unavailable : response :=
  {| status_code := 503; headers := []; text := "Service Unavailable";
     json_body := None |}.

(** The [error] member of [maxlag_body]. *)
Definition maxlag_error : json :=
  JObj [("code", JStr "maxlag");
        ("info", JStr "Waiting for a database server: 7 seconds lagged.");
        ("lag", JInt 7)].

(** A body that reports success. *)
Definition complete : list (string * json) := [("batchcomplete", JBool true)].

(** The continuation of a query by a generator. *)
Definition gap_continue : list (string * json) :=
  [("gapcontinue", JStr "B"); ("continue", JStr "gapcontinue||")].

(** The fragments of the page 1, titled A, and a page 2. *)
Definition page_a (rev : Z) (members : list (string * json)) : json :=
  fragment (JInt 1) (JInt rev) (("title", JStr "A") :: members).

Definition page_b : json := fragment (JInt 2) (JInt 1) [("title", JStr "B")].
(** * Properties *)

(** ** Durations *)

Lemma pow2_pos e : (0 < Builtins.pow2 e)%Q.
Proof.
  unfold Builtins.pow2. destruct (Z.leb_spec 0 e) as [He | He].
  - unfold Qlt. simpl. pose proof (Z.pow_pos_nonneg 2 e). lia.
  - reflexivity.
Qed.

Lemma round_half_even_bounds x :
  (0 <= x)%Q ->
  (0 <= Builtins.round_half_even x)%Z
  /\ (inject_Z (Builtins.round_half_even x) <= x + 1)%Q.
Proof.
  intros Hx. unfold Builtins.round_half_even.
  assert (0 <= Qfloor x)%Z as Hf.
  { change 0%Z with (Qfloor 0). by apply Qfloor_resp_le. }
  pose proof (Qfloor_le x) as Hle.
  assert (inject_Z (Qfloor x + 1) <= x + 1)%Q as Hle1.
  { rewrite inject_Z_plus. by apply Qplus_le_l. }
  assert (inject_Z (Qfloor x) <= x + 1)%Q as Hle0.
  { apply Qle_trans with x; [done|]. rewrite <- (Qplus_0_r x) at 1.
    by apply Qplus_le_r. }
  destruct (_ ?= _)%Q; [destruct (Z.even _)| |]; split; done || lia.
Qed.

Lemma pow2_le_1 u : (u <= 0)%Z -> (Builtins.pow2 u <= 1)%Q.
Proof.
  intros Hu. unfold Builtins.pow2. destruct (Z.leb_spec 0 u) as [He | He].
  - assert (u = 0%Z) as -> by lia. done.
  - unfold Qle. simpl. lia.
Qed.

(** The exponent that [double] finds is the one of its argument. *)
Lemma pow2_exponent n d :
  (0 < n)%Z ->
  let a := (n # d)%Q in
  let e0 := (Z.log2 n - Z.log2 (Zpos d))%Z in
  (0 <= (if Qle_bool (Builtins.pow2 e0) a then e0 else e0 - 1))%Z ->
  (Builtins.pow2 (if Qle_bool (Builtins.pow2 e0) a then e0 else e0 - 1) <= a)%Q.
Proof.
  intros Hn a e0. destruct (Qle_bool (Builtins.pow2 e0) a) eqn:Hle.
  - intros _. by apply Qle_bool_iff.
  - intros He. unfold Builtins.pow2. destruct (Z.leb_spec 0 (e0 - 1)) as [_ | ?]; [|lia].
    unfold Qle, a. simpl. rewrite Z.mul_1_r.
    pose proof (Z.log2_spec n Hn) as [Hlow _].
    pose proof (Z.log2_spec (Zpos d) eq_refl) as [_ Hhigh].
    pose proof (Z.log2_nonneg (Zpos d)) as Hd.
    assert (2 ^ Z.log2 n = 2 ^ (e0 - 1) * 2 ^ Z.succ (Z.log2 (Z.pos d)))%Z as Hsplit.
    { rewrite <- Z.pow_add_r by lia. f_equal. unfold e0. lia. }
    pose proof (Z.pow_pos_nonneg 2 (e0 - 1)). nia.
Qed.

Lemma double_bounds q :
  (0 <= q)%Q -> (0 <= Builtins.double q)%Q /\ (Builtins.double q <= 2 * q + 1)%Q.
Proof.
  intros Hq. unfold Builtins.double.
  assert (Qabs q = q) as ->.
  { destruct q as [n d]. unfold Qle in Hq. simpl in Hq. unfold Qabs.
    f_equal. lia. }
  destruct (Qeq_bool q 0) eqn:Hzero.
  { split; [done|]. apply Qle_trans with (2 * q)%Q.
    - rewrite <- (Qmult_0_r 2). apply Qmult_le_l; done.
    - rewrite <- (Qplus_0_r (2 * q)) at 1. by apply Qplus_le_r. }
  apply (proj2 (Qle_bool_iff 0 q)) in Hq as Hpos. rewrite Hpos.
  set (e0 := (Z.log2 (Qnum q) - Z.log2 (Z.pos (Qden q)))%Z).
  set (e := if Qle_bool (Builtins.pow2 e0) q then e0 else (e0 - 1)%Z).
  set (u := Z.max (e - 52) (-1074)).
  pose proof (pow2_pos u) as Hp.
  assert (0 <= q / Builtins.pow2 u)%Q as Hx.
  { apply Qle_shift_div_l; [done|]. by rewrite Qmult_0_l. }
  destruct (round_half_even_bounds _ Hx) as [Hm0 Hm1].
  split.
  - apply Qmult_le_0_compat; [|by apply Qlt_le_weak].
    change 0%Q with (inject_Z 0). by rewrite <- Zle_Qle.
  - assert (Builtins.pow2 u <= q + 1)%Q as Hulp.
    { destruct (Z.le_gt_cases u 0) as [Hu | Hu].
      - apply Qle_trans with 1%Q; [by apply pow2_le_1|].
        rewrite <- (Qplus_0_l 1) at 1. by apply Qplus_le_l.
      - assert (u = (e - 52)%Z) as Hue by lia.
        assert (0 < Qnum q)%Z as Hn.
        { destruct q as [n d]. unfold Qle in Hq. simpl in Hq.
          destruct (Z.eq_dec n 0) as [-> | ?]; [done | simpl; lia]. }
        assert (Builtins.pow2 e <= q)%Q as He.
        { destruct q as [n d]. apply (pow2_exponent n d Hn).
          change (0 <= e)%Z. lia. }
        apply Qle_trans with q; [|rewrite <- (Qplus_0_r q) at 1; by apply Qplus_le_r].
        apply Qle_trans with (Builtins.pow2 e); [|done].
        rewrite Hue. unfold Builtins.pow2.
        destruct (Z.leb_spec 0 (e - 52)), (Z.leb_spec 0 e); try lia.
        rewrite <- Zle_Qle. apply Z.pow_le_mono_r; lia. }
    apply Qle_trans with ((q / Builtins.pow2 u + 1) * Builtins.pow2 u)%Q.
    + apply Qmult_le_compat_r; [done | by apply Qlt_le_weak].
    + assert ((q / Builtins.pow2 u + 1) * Builtins.pow2 u == q + Builtins.pow2 u)%Q as ->.
      { field. intros Heq. rewrite Heq in Hp. by apply Qlt_irrefl in Hp. }
      assert (2 * q + 1 == q + (q + 1))%Q as -> by ring.
      by apply Qplus_le_r.
Qed.

(** [time.sleep] takes a duration from 0 to 10^9 seconds. *)
Lemma brief_sleep seconds : brief seconds -> Time.sleep seconds = Ok tt.
Proof.
  intros (q & -> & Hq0 & Hq1). unfold Time.sleep, Time.nanoseconds.
  destruct (double_bounds q Hq0) as [Hd0 Hd1].
  set (d := Builtins.double q) in *.
  assert (0 <= d * inject_Z (10 ^ 9))%Q as Hy0.
  { by apply Qmult_le_0_compat. }
  destruct (double_bounds _ Hy0) as [He0 He1].
  set (x := Builtins.double (d * inject_Z (10 ^ 9))) in *.
  apply (proj2 (Qle_bool_iff 0 x)) in He0 as Hpos. rewrite Hpos.
  assert (x <= inject_Z (2 ^ 62))%Q as Hx.
  { apply Qle_trans with (2 * (d * inject_Z (10 ^ 9)) + 1)%Q; [done|].
    apply Qle_trans with (2 * ((2 * inject_Z (10 ^ 9) + 1) * inject_Z (10 ^ 9)) + 1)%Q;
      [|done].
    apply Qplus_le_l, Qmult_le_l; [done|]. apply Qmult_le_compat_r; [|done].
    apply Qle_trans with (2 * q + 1)%Q; [done|].
    apply Qplus_le_l, Qmult_le_l; done. }
  assert (0 <= Qceiling x <= 2 ^ 62)%Z as [Hc0 Hc1].
  { split.
    - change 0%Z with (Qceiling 0). by apply Qceiling_resp_le.
    - rewrite <- (Qceiling_Z (2 ^ 62)). by apply Qceiling_resp_le. }
  destruct (Z.ltb_spec (Qceiling x) (- 2 ^ 63)); [lia|].
  destruct (Z.ltb_spec (2 ^ 63) (Qceiling x)); [lia|].
  destruct (Z.ltb_spec (Qceiling x) 0); [lia|].
  destruct (Z.eqb_spec (Qceiling x) (2 ^ 63)); [lia | done].
Qed.

(** ** Computations *)

Lemma bind_ret {A B} (a : A) (f : A -> M B) : ret a ≫= f = f a.
Proof. unfold mbind, M_bind, bind, ret. destruct (f a). reflexivity. Qed.

Lemma bind_nil {A B} (a : A) (f : A -> M B) : (([], Done a) : M A) ≫= f = f a.
Proof. apply bind_ret. Qed.

Lemma bind_done {A B} evs (a : A) (f : A -> M B) :
  ((evs, Done a) : M A) ≫= f = (evs ++ fst (f a), snd (f a)).
Proof. unfold mbind, M_bind, bind. destruct (f a). reflexivity. Qed.

Lemma bind_raised {A B} evs e (f : A -> M B) :
  ((evs, Raised e) : M A) ≫= f = (evs, Raised e).
Proof. reflexivity. Qed.

Lemma bind_pending {A B} evs (f : A -> M B) :
  ((evs, Pending) : M A) ≫= f = (evs, Pending).
Proof. reflexivity. Qed.

Lemma bind_assoc {A B C} (m : M A) (f : A -> M B) (g : B -> M C) :
  (m ≫= f) ≫= g = m ≫= (fun a => f a ≫= g).
Proof.
  destruct m as [evs [a | e | ]]; try reflexivity.
  unfold mbind, M_bind, bind.
  destruct (f a) as [evs' [b | e | ]]; try reflexivity.
  destruct (g b) as [evs'' o]. by rewrite app_assoc.
Qed.

Lemma bind_ext {A B} (m : M A) (f g : A -> M B) :
  (forall a, f a = g a) -> m ≫= f = m ≫= g.
Proof.
  intros Hfg. destruct m as [evs [a | e | ]]; try reflexivity.
  unfold mbind, M_bind, bind. by rewrite Hfg.
Qed.

Lemma bind_tell {A B C} evs evs' (c : C) (a : A) (f : A -> M B) :
  ((evs, Done c) : M C) ≫= (fun _ => ((evs', Done a) : M A) ≫= f)
  = ((evs ++ evs', Done a) : M A) ≫= f.
Proof.
  unfold mbind, M_bind, bind. destruct (f a). by rewrite app_assoc.
Qed.

Lemma sleeps_app why evs evs' :
  sleeps why (evs ++ evs') = sleeps why evs ++ sleeps why evs'.
Proof. apply omap_app. Qed.

Lemma yields_app evs evs' : yields (evs ++ evs') = yields evs ++ yields evs'.
Proof. apply omap_app. Qed.

Lemma requests_app evs evs' : requests (evs ++ evs') = requests evs ++ requests evs'.
Proof. apply omap_app. Qed.

Lemma sleep_brief why seconds :
  brief seconds -> sleep why seconds = ([Sleep why seconds], Done tt).
Proof. intros Hs. unfold sleep. by rewrite (brief_sleep _ Hs). Qed.

Lemma pacing_events site :
  paced site ->
  (if Builtins.truthy (pre_request_delay site)
   then sleep Pacing (pre_request_delay site) else ret tt) = (pacing site, Done tt).
Proof.
  unfold paced, pacing. destruct (Builtins.truthy _); [|done].
  intros Hp. by apply sleep_brief, Hp.
Qed.

Lemma sleeps_pacing_lag site : sleeps LagBackoff (pacing site) = [].
Proof. unfold pacing. destruct (Builtins.truthy _); reflexivity. Qed.

Lemma sleeps_pacing_conn site : sleeps ConnBackoff (pacing site) = [].
Proof. unfold pacing. destruct (Builtins.truthy _); reflexivity. Qed.

Lemma log_events site lvl text : log site lvl text = (logged site lvl text, Done tt).
Proof. unfold log, logged. destruct (logger site lvl); reflexivity. Qed.

Lemma sleeps_logged why site lvl text : sleeps why (logged site lvl text) = [].
Proof. unfold logged. destruct (logger site lvl); reflexivity. Qed.

(** ** [Site.request] on an error status *)

Lemma request_not_ok site method kw r :
  ok r = false ->
  request site method kw (Responds r) = ([Request method kw], Raised (call_failed r)).
Proof.
  intros Hok. unfold request, call_failed. rewrite Hok. simpl.
  destruct (json_body r); reflexivity.
Qed.

Lemma ok_status r : ok r = negb ((400 <=? status_code r)%Z && (status_code r <? 600)%Z).
Proof. reflexivity. Qed.

Lemma error_status r : (400 <= status_code r < 600)%Z <-> ok r = false.
Proof.
  rewrite ok_status.
  destruct (Z.leb_spec 400 (status_code r)), (Z.ltb_spec (status_code r) 600);
    simpl; split; intros; lia || done.
Qed.

(** C9, as amended. For a request made without [EXTRAS], a response
    whose status is an error status, from 400 to 599, makes [request]
    raise at once an [ApiError] that carries the status code and the
    decoded JSON body, or the raw text when the body is not valid JSON;
    wherever it comes in the retry loop of [__call__], the call ends
    with that error: the request is not sent again, no back-off sleep
    follows and the rest of the script is left unused.  A response with
    any other status is returned by [request], whether or not the status
    is one of success. *)
Theorem error_status_raises_and_is_not_retried :
  forall site method kw r,
    extras kw = None ->
    ((400 <= status_code r < 600)%Z ->
     request site method kw (Responds r)
       = ([Request method kw],
          Raised
            (ApiError "Call failed"
               (JObj [("status_code", JInt (status_code r));
                      match json_body r with
                      | Some body => ("json_body", body)
                      | None => ("text_body", JStr (text r))
                      end])))
     /\ forall try_count try_count_conn rest,
         paced site ->
         call_loop site method kw try_count try_count_conn (Responds r :: rest)
           = ((pacing site ++ [Request method kw], Raised (call_failed r)), rest))
    /\ (~ (400 <= status_code r < 600)%Z ->
        request site method kw (Responds r)
        = (Request method kw :: logged site DEBUG "server-response", Done r)).
Proof.
  intros site method kw r _. split.
  - intros Hok%error_status. split; [by apply request_not_ok|].
    intros tc tcc rest Hpaced. simpl. unfold attempt.
    rewrite (pacing_events _ Hpaced), (request_not_ok _ _ _ _ Hok).
    unfold call_failed. rewrite bind_done. reflexivity.
  - intros Hok. unfold request, emit.
    destruct (ok r) eqn:Hr; [|by apply error_status in Hr].
    rewrite log_events. simpl. by rewrite app_nil_r.
Qed.

(** C9 as stated fails on a status that is neither a success nor an
    error status: [r.ok] holds for a 304, and [request] returns the
    response instead of raising.  The call then fails on the body, which
    is empty, with the error of the JSON decoder. *)
Lemma redirection_status_is_returned :
  let r := {| status_code := 304; headers := []; text := EmptyString;
              json_body := None |} in
  request default_site GET plain_kw (Responds r) = ([Request GET plain_kw], Done r)
  /\ snd (fst (call default_site "query" ∅ [Responds r])) = Raised JSONDecodeError.
Proof. vm_compute. split; reflexivity. Qed.

(** ** The call loop *)

Lemma request_ok site method kw r :
  ok r = true ->
  request site method kw (Responds r)
  = (Request method kw :: logged site DEBUG "server-response", Done r).
Proof.
  intros Hok. unfold request, emit. rewrite Hok, log_events. simpl.
  by rewrite app_nil_r.
Qed.

Lemma attempt_responds site method kw tc tcc r :
  paced site ->
  ok r = true ->
  attempt site method kw tc tcc (Responds r)
  = ((pacing site ++ Request method kw :: logged site DEBUG "server-response", Done tt) : M unit)
      ≫= (fun _ => on_response site tc r).
Proof.
  intros Hpaced Hok. unfold attempt.
  rewrite (pacing_events _ Hpaced), (request_ok _ _ _ _ Hok).
  apply bind_tell.
Qed.

Lemma attempt_connection_error site method kw tc tcc :
  paced site ->
  attempt site method kw tc tcc (Fails ConnectionError)
  = ((pacing site ++ [Request method kw], Done tt) : M unit)
      ≫= (fun _ => on_connection_error site tcc).
Proof.
  intros Hpaced. unfold attempt. rewrite (pacing_events _ Hpaced). simpl.
  destruct (on_connection_error site tcc). by rewrite <- app_assoc.
Qed.

Lemma maxlag_reply_error r error seconds :
  maxlag_reply r error seconds ->
  exists data,
    json_body r = Some data /\ Py.contains data "error" = Ok true /\
    Py.getitem data "error" = Ok error.
Proof.
  intros (Hok & data & code & Hbody & Herr & Hcode & Heq & Hafter).
  exists data. split; [done|]. split; [|done].
  destruct data; try discriminate. simpl in *. unfold Py.dict_mem.
  destruct (Py.dict_get members "error"); [done | discriminate].
Qed.

(** What [__call__] does with a response that reports maxlag: lines
    154-177. *)
Lemma on_response_maxlag site tc r error seconds :
  maxlag_reply r error seconds ->
  exists data,
    json_body r = Some data /\ Py.contains data "error" = Ok true /\
    Py.getitem data "error" = Ok error /\
    on_response site tc r =
      if exhausted (retry_on_lag_error site) tc
      then (logged site WARNING "maxlag-retry", Done (Break data))
      else match Time.sleep seconds with
           | Ok _ =>
               (logged site INFO "maxlag-retry" ++ [Sleep LagBackoff seconds],
                Done Continue)
           | Err e => (logged site INFO "maxlag-retry", Raised e)
           end.
Proof.
  intros Hlag. destruct (maxlag_reply_error _ _ _ Hlag) as (data & Hbody & Hin & Herr).
  destruct Hlag as (Hok & data' & code & Hbody' & Herr' & Hcode & Heq & Hafter).
  assert (data' = data) as -> by congruence.
  assert (error = error) by done.
  exists data. split; [done|]. split; [done|]. split; [done|].
  unfold on_response, parse_json. rewrite Hbody, bind_ret.
  rewrite Herr'. simpl. rewrite Hcode, Heq. simpl.
  rewrite Hafter. unfold lift. rewrite bind_ret.
  fold (exhausted (retry_on_lag_error site) tc).
  destruct (exhausted _ _); rewrite log_events, bind_done.
  - simpl. by rewrite app_nil_r.
  - unfold sleep. by destruct (Time.sleep seconds) as [[] | e]; simpl;
      rewrite ?app_nil_r.
Qed.

Lemma resolve_error site data error :
  Py.contains data "error" = Ok true ->
  Py.getitem data "error" = Ok error ->
  resolve site data = ([], Raised (ApiError "Server API Error" error)).
Proof.
  intros Hin Hget. unfold resolve. rewrite Hin, Hget. reflexivity.
Qed.

Lemma resolve_done site data evs result :
  resolve site data = (evs, Done result) ->
  result = data /\ Py.contains data "error" = Ok false.
Proof.
  unfold resolve. destruct (Py.contains data "error") as [[] | e]; simpl.
  - destruct (Py.getitem data "error"); simpl; discriminate.
  - destruct (Py.contains data "warnings") as [has | e]; simpl; [|discriminate].
    destruct (has && logger site WARNING).
    + destruct (Py.getitem data "warnings") as [w | e]; simpl; [|discriminate].
      destruct (warnings_message w) as [[] | e]; simpl; [|discriminate].
      rewrite log_events. simpl. intros [= _ <-]. done.
    + simpl. intros [= _ <-]. done.
  - discriminate.
Qed.

(** Warnings that map each source to an object can be logged. *)
Lemma warnings_message_well_formed items :
  forallb (fun kv : string * json =>
             match snd kv with JObj _ => true | _ => false end) items = true ->
  warnings_message (JObj items) = Ok tt.
Proof.
  intros Hall. unfold warnings_message.
  assert (exists l, mapM (fun vv : string * json =>
              has ← Py.contains (snd vv) "warnings";
              if has : bool then Py.getitem (snd vv) "warnings" else Ok (snd vv)) items
            = Ok l) as [l ->]; [|reflexivity].
  induction items as [| [k v] items IH]; [by eexists|].
  simpl in Hall. apply andb_prop in Hall as [Hv Hall].
  destruct (IH Hall) as [l Hl]. simpl. destruct v; try discriminate.
  simpl. unfold Py.dict_mem.
  destruct (Py.dict_get members "warnings") eqn:Hw; simpl; rewrite ?Hw, Hl; by eexists.
Qed.

Lemma loggable_no_warnings site d : Py.dict_get d "warnings" = None -> loggable site d.
Proof. intros Hnone _ w Hw. congruence. Qed.

Lemma resolve_success site d :
  Py.dict_mem d "error" = false ->
  loggable site d ->
  exists evs, resolve site (JObj d) = (evs, Done (JObj d))
              /\ yields evs = [] /\ requests evs = []
              /\ forall why, sleeps why evs = [].
Proof.
  intros Herr Hw. unfold resolve. simpl. rewrite Herr. simpl.
  unfold loggable, Py.dict_mem in *.
  destruct (Py.dict_get d "warnings") as [w|]; simpl.
  - destruct (logger site WARNING) eqn:Hlog; simpl.
    + rewrite (Hw eq_refl w eq_refl). simpl.
      unfold log. rewrite Hlog. simpl. eexists. split; [reflexivity|].
      split; [done|]. split; [done|]. by intros [].
    + eexists. split; [reflexivity|]. split; [done|]. split; [done|]. by intros [].
  - eexists. split; [reflexivity|]. split; [done|]. split; [done|]. by intros [].
Qed.

Lemma on_response_success site tc r d :
  success_reply site r d -> on_response site tc r = ([], Done (Break (JObj d))).
Proof.
  intros (Hok & Hbody & Herr & _). unfold on_response, parse_json.
  rewrite Hbody, bind_ret. simpl. unfold Py.dict_mem in Herr.
  destruct (Py.dict_get d "error"); [discriminate | reflexivity].
Qed.

Lemma call_loop_cons site method kw tc tcc a rest :
  call_loop site method kw tc tcc (a :: rest)
  = match attempt site method kw (tc + 1) (tcc + 1) a with
    | (evs, Done (Break data)) => ((evs, Done tt) ≫= (fun _ => resolve site data), rest)
    | (evs, Done Continue) =>
        let '(m, rest') := call_loop site method kw (tc + 1) (tcc + 1) rest in
        ((evs, Done tt) ≫= (fun _ => m), rest')
    | (evs, Raised e) => ((evs, Raised e), rest)
    | (evs, Pending) => ((evs, Pending), rest)
    end.
Proof. reflexivity. Qed.

Lemma call_loop_maxlag_retry site method kw tc tcc r error seconds rest :
  paced site ->
  maxlag_reply r error seconds ->
  brief seconds ->
  exhausted (retry_on_lag_error site) (tc + 1) = false ->
  call_loop site method kw tc tcc (Responds r :: rest)
  = let '(m, rest') := call_loop site method kw (tc + 1) (tcc + 1) rest in
    (((lag_round site method kw seconds, Done tt) : M unit) ≫= (fun _ => m), rest').
Proof.
  intros Hpaced Hlag Hbrief Hbudget. rewrite call_loop_cons.
  rewrite attempt_responds by (done || apply Hlag).
  destruct (on_response_maxlag site (tc + 1) _ _ _ Hlag) as (data & _ & _ & _ & ->).
  rewrite Hbudget, (brief_sleep _ Hbrief), bind_done. reflexivity.
Qed.

(** A back-off that [time.sleep] refuses ends the call. *)
Lemma call_loop_maxlag_refused site method kw tc tcc r error seconds e rest :
  paced site ->
  maxlag_reply r error seconds ->
  Time.sleep seconds = Err e ->
  exhausted (retry_on_lag_error site) (tc + 1) = false ->
  call_loop site method kw tc tcc (Responds r :: rest)
  = (((pacing site ++ Request method kw :: logged site DEBUG "server-response")
      ++ logged site INFO "maxlag-retry", Raised e), rest).
Proof.
  intros Hpaced Hlag Hsleep Hbudget. rewrite call_loop_cons.
  rewrite attempt_responds by (done || apply Hlag).
  destruct (on_response_maxlag site (tc + 1) _ _ _ Hlag) as (data & _ & _ & _ & ->).
  by rewrite Hbudget, Hsleep, bind_done.
Qed.

Lemma call_loop_maxlag_exhausted site method kw tc tcc r error seconds rest :
  paced site ->
  maxlag_reply r error seconds ->
  exhausted (retry_on_lag_error site) (tc + 1) = true ->
  call_loop site method kw tc tcc (Responds r :: rest)
  = (((pacing site ++ Request method kw :: logged site DEBUG "server-response")
      ++ logged site WARNING "maxlag-retry",
      Raised (ApiError "Server API Error" error)), rest).
Proof.
  intros Hpaced Hlag Hbudget. rewrite call_loop_cons.
  rewrite attempt_responds by (done || apply Hlag).
  destruct (on_response_maxlag site (tc + 1) _ _ _ Hlag) as (data & _ & Hin & Hget & ->).
  rewrite Hbudget, bind_done. simpl.
  rewrite (resolve_error _ _ _ Hin Hget). by rewrite app_nil_r.
Qed.

Lemma call_loop_success site method kw tc tcc r d rest :
  paced site ->
  success_reply site r d ->
  exists evs,
    call_loop site method kw tc tcc (Responds r :: rest) = ((evs, Done (JObj d)), rest)
    /\ yields evs = [] /\ requests evs = [(method, kw)]
    /\ forall why, sleeps why evs = sleeps why (pacing site).
Proof.
  intros Hpaced Hr. rewrite call_loop_cons.
  rewrite attempt_responds by (done || apply Hr).
  rewrite (on_response_success _ _ _ _ Hr), bind_done. simpl.
  destruct Hr as (_ & _ & Herr & Hw).
  destruct (resolve_success site d Herr Hw) as (evs & -> & Hy & Hq & Hs).
  eexists. split; [reflexivity|].
  rewrite !yields_app, !requests_app, Hy, Hq. simpl.
  split; [|split].
  - unfold pacing, logged. by destruct (Builtins.truthy _), (logger site DEBUG).
  - unfold pacing, logged. by destruct (Builtins.truthy _), (logger site DEBUG).
  - intros why. rewrite !sleeps_app, Hs. simpl.
    by rewrite sleeps_logged, !app_nil_r.
Qed.

Lemma sleeps_lag_round site method kw seconds :
  sleeps LagBackoff (lag_round site method kw seconds) = [seconds]
  /\ sleeps ConnBackoff (lag_round site method kw seconds) = [].
Proof.
  unfold lag_round.
  change (Request method kw :: logged site DEBUG "server-response")
    with ([Request method kw] ++ logged site DEBUG "server-response").
  rewrite !sleeps_app, !sleeps_logged, sleeps_pacing_lag, sleeps_pacing_conn.
  done.
Qed.

(** As long as the budget lasts, each maxlag response costs one round and
    one back-off of the length it asks for. *)
Lemma call_loop_retry_lag site method kw replies seconds :
  paced site ->
  Forall2 (fun r s => brief s /\ exists error, maxlag_reply r error s) replies seconds ->
  forall tc tcc script,
    (retry_on_lag_error site < 0
     \/ tc + Z.of_nat (length replies) <= retry_on_lag_error site)%Z ->
    exists evs,
      sleeps LagBackoff evs = seconds /\ sleeps ConnBackoff evs = [] /\
      call_loop site method kw tc tcc (map Responds replies ++ script)
      = let '(m, rest) :=
          call_loop site method kw (tc + Z.of_nat (length replies))
            (tcc + Z.of_nat (length replies)) script in
        (((evs, Done tt) : M unit) ≫= (fun _ => m), rest).
Proof.
  intros Hpaced.
  induction 1 as [| r s replies seconds [Hs [error Hr]] _ IH]; intros tc tcc script Hbudget.
  - exists []. simpl. rewrite !Z.add_0_r.
    destruct (call_loop site method kw tc tcc script) as [[evs o] rest].
    split; [done|]. split; [done|]. by destruct o.
  - simpl length in *. rewrite Nat2Z.inj_succ in *.
    destruct (IH (tc + 1)%Z (tcc + 1)%Z script) as (evs & Hlag & Hconn & Heq); [lia|].
    exists (lag_round site method kw s ++ evs).
    destruct (sleeps_lag_round site method kw s) as [Hl Hc].
    rewrite !sleeps_app, Hl, Hc, Hlag, Hconn. split; [done|]. split; [done|].
    simpl map. simpl app.
    rewrite (call_loop_maxlag_retry _ _ _ _ _ _ _ _ _ Hpaced Hr Hs).
    + replace (tc + 1 + Z.of_nat (length replies))%Z
        with (tc + Z.succ (Z.of_nat (length replies)))%Z in Heq by lia.
      replace (tcc + 1 + Z.of_nat (length replies))%Z
        with (tcc + Z.succ (Z.of_nat (length replies)))%Z in Heq by lia.
      rewrite Heq.
      destruct (call_loop _ _ _ _ _ script) as [m rest].
      f_equal. apply bind_tell.
    + unfold exhausted. destruct Hbudget; lia.
Qed.

Lemma call_loop_returns_no_error site method kw script :
  forall tc tcc evs data rest,
    call_loop site method kw tc tcc script = ((evs, Done data), rest) ->
    Py.contains data "error" = Ok false.
Proof.
  induction script as [| a script IH]; intros tc tcc evs data rest.
  - simpl. destruct (if Builtins.truthy _ then _ else _) as [evs0 [[] | e |]];
      discriminate.
  - rewrite call_loop_cons.
    destruct (attempt _ _ _ _ _ a) as [evs0 [[data0 | ] | e | ]]; try discriminate.
    + destruct (resolve site data0) as [evs1 o] eqn:Hres. rewrite bind_done. simpl.
      intros [= _ -> _]. by destruct (resolve_done _ _ _ _ Hres) as [-> ?].
    + destruct (call_loop site method kw (tc + 1) (tcc + 1) script)
        as [[evs1 o] rest1] eqn:Hloop.
      rewrite bind_done. simpl. intros [= _ -> _]. eapply IH, Hloop.
Qed.

Lemma call_returns_no_error site action kwargs script evs data rest :
  call site action kwargs script = ((evs, Done data), rest) ->
  Py.contains data "error" = Ok false.
Proof.
  unfold call. destruct (negb (binds kwargs)); [discriminate|].
  destruct (prepare_call site action kwargs) as [[method kw] | e];
    [|discriminate].
  apply call_loop_returns_no_error.
Qed.

(** ** Connection failures *)

Lemma time_sleep_error seconds e :
  Time.sleep seconds = Err e -> e = ValueError \/ e = OverflowError.
Proof.
  unfold Time.sleep. destruct seconds as [q | |]; try (intros [= <-]; auto).
  destruct (_ || _); [intros [= <-]; auto|].
  destruct (_ || _); [intros [= <-]; auto | done].
Qed.

Lemma sleep_outcome why seconds :
  sleep why seconds = ([Sleep why seconds], Done tt)
  \/ exists e, sleep why seconds = ([], Raised e)
               /\ (e = ValueError \/ e = OverflowError).
Proof.
  unfold sleep. destruct (Time.sleep seconds) as [[] | e] eqn:Hs; [by left|].
  right. exists e. split; [done|]. by eapply time_sleep_error.
Qed.

Lemma on_connection_error_quiet site tcc :
  logger site WARNING = false ->
  on_connection_error site tcc
  = sleep ConnBackoff (retry_after_conn site) ≫= (fun _ => ret Continue).
Proof.
  intros Hquiet. unfold on_connection_error, log. rewrite Hquiet.
  destruct (_ && _).
  - rewrite Hquiet. by rewrite bind_ret.
  - destruct (logger site INFO); by rewrite bind_ret.
Qed.

Lemma pace_outcome site :
  let pace := if Builtins.truthy (pre_request_delay site)
              then sleep Pacing (pre_request_delay site) else ret tt in
  (exists evs, pace = (evs, Done tt))
  \/ (exists e, pace = ([], Raised e) /\ (e = ValueError \/ e = OverflowError)).
Proof.
  simpl. destruct (Builtins.truthy _); [|left; by eexists].
  destruct (sleep_outcome Pacing (pre_request_delay site)) as [-> | (e & -> & He)].
  - left. by eexists.
  - right. by exists e.
Qed.

(** With a logger for which warnings are not enabled, no round of the
    loop ends a call with the connection failure. *)
Lemma call_loop_quiet site method kw n :
  logger site WARNING = false ->
  forall tc tcc,
    snd (fst (call_loop site method kw tc tcc (repeat (Fails ConnectionError) n)))
    <> Raised ConnectionError.
Proof.
  intros Hquiet. induction n as [| n IH]; intros tc tcc.
  - simpl repeat. cbn [call_loop].
    destruct (pace_outcome site) as [(evs & ->) | (e & -> & [-> | ->])]; done.
  - simpl repeat. rewrite call_loop_cons. unfold attempt.
    destruct (pace_outcome site) as [(evs & ->) | (e & -> & [-> | ->])]; [|done..].
    rewrite bind_done. cbn [request fst snd].
    rewrite (on_connection_error_quiet _ _ Hquiet).
    destruct (sleep_outcome ConnBackoff (retry_after_conn site))
      as [-> | (e' & -> & [-> | ->])]; [|done..].
    specialize (IH (tc + 1)%Z (tcc + 1)%Z). simpl.
    destruct (call_loop site method kw (tc + 1) (tcc + 1) _) as [[evs' out] rest].
    simpl in *. by destruct out.
Qed.

(** C2, on the code. With a logger for which warnings are not enabled,
    a connection failure is never propagated, whatever the budget: no
    call ends with it, and when the pauses of the client are durations
    that [time.sleep] takes and the request is made without [EXTRAS],
    the call sleeps after each failure and sends the request again, so
    that a script of n failures leaves it waiting for the answer to
    request number n + 1. *)
Theorem connection_error_not_raised_when_warnings_are_disabled :
  forall site method kw n try_count try_count_conn,
    logger site WARNING = false ->
    snd (fst (call_loop site method kw try_count try_count_conn
                (repeat (Fails ConnectionError) n)))
    <> Raised ConnectionError
    /\ (steady site ->
        extras kw = None ->
        exists evs,
          call_loop site method kw try_count try_count_conn
            (repeat (Fails ConnectionError) n)
          = ((evs, Pending), [])
          /\ sleeps ConnBackoff evs = repeat (retry_after_conn site) n
          /\ length (requests evs) = S n).
Proof.
  intros site method kw n tc tcc Hquiet. split; [by apply call_loop_quiet|].
  intros [Hpaced Hconn] _. revert tc tcc.
  induction n as [| n IH]; intros tc tcc.
  - simpl. rewrite (pacing_events _ Hpaced). eexists. split; [reflexivity|].
    unfold pacing. destruct (Builtins.truthy _); done.
  - simpl repeat. rewrite call_loop_cons, (attempt_connection_error _ _ _ _ _ Hpaced).
    rewrite (on_connection_error_quiet _ _ Hquiet), (sleep_brief _ _ Hconn), !bind_done.
    simpl.
    destruct (IH (tc + 1)%Z (tcc + 1)%Z) as (evs & -> & Hsleeps & Hreqs).
    eexists. split; [reflexivity|].
    rewrite !sleeps_app, !requests_app, sleeps_pacing_conn, Hsleeps.
    rewrite !length_app, Hreqs. unfold pacing.
    destruct (Builtins.truthy _); simpl; split; (done || lia).
Qed.

(** With a logger for which warnings are enabled the budget is kept, as
    long as only connection failures occur: N retries, each after a
    sleep, and then the failure is raised. *)
Lemma connection_budget_kept_when_warnings_are_enabled site method kw n :
  logger site WARNING = true ->
  steady site ->
  forall try_count try_count_conn rest,
    (try_count_conn + Z.of_nat n = retry_on_connection_error site)%Z ->
    (0 <= try_count_conn)%Z ->
    exists evs,
      call_loop site method kw try_count try_count_conn
        (repeat (Fails ConnectionError) (S n) ++ rest)
      = ((evs, Raised ConnectionError), rest)
      /\ sleeps ConnBackoff evs = repeat (retry_after_conn site) n
      /\ length (requests evs) = S n.
Proof.
  intros Hloud [Hpaced Hconn].
  induction n as [| n IH]; intros tc tcc rest Hbudget Hpos.
  - simpl repeat. simpl app.
    rewrite call_loop_cons, (attempt_connection_error _ _ _ _ _ Hpaced).
    unfold on_connection_error.
    replace ((0 <=? retry_on_connection_error site)%Z
             && (retry_on_connection_error site <? tcc + 1)%Z) with true
      by (symmetry; apply andb_true_intro; split; lia).
    rewrite Hloud, log_events. simpl. eexists. split; [reflexivity|].
    rewrite !sleeps_app, !requests_app, sleeps_pacing_conn, length_app.
    unfold pacing, logged. destruct (Builtins.truthy _); by rewrite Hloud.
  - change (repeat (Fails ConnectionError) (S (S n)) ++ rest)
      with (Fails ConnectionError :: repeat (Fails ConnectionError) (S n) ++ rest).
    rewrite call_loop_cons, (attempt_connection_error _ _ _ _ _ Hpaced).
    unfold on_connection_error.
    replace ((0 <=? retry_on_connection_error site)%Z
             && (retry_on_connection_error site <? tcc + 1)%Z) with false
      by (symmetry; apply andb_false_intro2; lia).
    destruct (IH (tc + 1)%Z (tcc + 1)%Z rest) as (evs & -> & Hsleeps & Hreqs);
      [lia | lia |].
    assert ((if logger site INFO
             then log site WARNING "ConnectionError, retrying in {self.retry_after_conn}s"
             else ret tt)
            = (if logger site INFO
               then [Log WARNING "ConnectionError, retrying in {self.retry_after_conn}s"]
               else [], Done tt)) as ->.
    { unfold log. rewrite Hloud. by destruct (logger site INFO). }
    rewrite (sleep_brief _ _ Hconn). simpl. eexists. split; [reflexivity|].
    rewrite !sleeps_app, !requests_app, sleeps_pacing_conn, Hsleeps.
    rewrite !length_app, Hreqs. unfold pacing.
    destruct (Builtins.truthy _), (logger site INFO); simpl; split; (done || lia).
Qed.

(** The two counters of [__call__] both count every round of the loop:
    a round spent on a lagging server uses up the connection budget
    too.  With a budget of one retry, a connection failure that follows
    one maxlag round is raised at once. *)
Example connection_budget_is_shared_with_lag_rounds :
  let site := {|
    logger := logger default_site; no_ssl := false; maxlag := Some 30%Z;
    auto_post_min_size := 2000; retry_on_lag_error := 50;
    retry_on_connection_error := 1; retry_after_conn := Finite 5;
    pre_request_delay := Finite 0 |} in
  let run := call site "query" ∅ [Responds (reply [] maxlag_body); Fails ConnectionError] in
  snd (fst run) = Raised ConnectionError
  /\ sleeps ConnBackoff (fst (fst run)) = [].
Proof. vm_compute. repeat split. Qed.

(** ** Parameter normalisation *)

Lemma normalize_item_coerce kwargs k val :
  normalize_item kwargs k val
  = c ← coerce val;
    Ok (match c with
        | Some w => <[k := w]> kwargs
        | None => delete k kwargs
        end).
Proof.
  unfold normalize_item, coerce. destruct (iterable val) as [items|].
  - by destruct (mapM update_value items).
  - by destruct (update_value val) as [[s|]|].
Qed.

Lemma update_value_error v e : update_value v = Err e -> e = ValueError.
Proof.
  destruct v; simpl; try discriminate.
  destruct (Datetime.non_utc d); [by intros [= <-] | discriminate].
Qed.

Lemma mapM_update_value_error items e :
  mapM update_value items = Err e -> e = ValueError.
Proof.
  induction items as [| v items IH]; simpl; [discriminate|].
  destruct (update_value v) as [c|e'] eqn:Hv; simpl.
  - destruct (mapM update_value items); simpl; [discriminate|].
    intros [= <-]. by apply IH.
  - intros [= <-]. by eapply update_value_error.
Qed.

Lemma coerce_error v e : coerce v = Err e -> e = ValueError.
Proof.
  unfold coerce. destruct (iterable v) as [items|].
  - destruct (mapM update_value items) eqn:Hm; simpl; [discriminate|].
    intros [= <-]. by eapply mapM_update_value_error.
  - destruct (update_value v) eqn:Hv; simpl; [discriminate|].
    intros [= <-]. by eapply update_value_error.
Qed.

Lemma normalize_loop_lookup items :
  NoDup items.*1 ->
  forall kwargs out,
    normalize_loop items kwargs = Ok out ->
    forall k,
      (forall v, (k, v) ∈ items -> exists c, coerce v = Ok c /\ out !! k = c)
      /\ (k ∉ items.*1 -> out !! k = kwargs !! k).
Proof.
  induction items as [| [k0 v0] items IH]; intros Hnodup kwargs out Hloop k.
  - simpl in Hloop. injection Hloop as <-. split; [|done].
    intros v Hin. by apply elem_of_nil in Hin.
  - simpl in Hloop. rewrite fmap_cons in Hnodup.
    apply NoDup_cons in Hnodup as [Hk0 Hnodup]. simpl in Hk0.
    rewrite normalize_item_coerce in Hloop.
    destruct (coerce v0) as [c0|] eqn:Hc0; [|discriminate]. simpl in Hloop.
    destruct (IH Hnodup _ _ Hloop k) as [Hin Hout].
    assert (out !! k0 = c0) as Hk0out.
    { destruct (IH Hnodup _ _ Hloop k0) as [_ Hx]. rewrite (Hx Hk0).
      destruct c0; [apply lookup_insert_eq | apply lookup_delete_eq]. }
    split.
    + intros v [[= -> ->] | Hv]%elem_of_cons; [by exists c0 | by apply Hin].
    + intros Hnotin. apply not_elem_of_cons in Hnotin as [Hne Hnotin].
      rewrite (Hout Hnotin).
      destruct c0; [by apply lookup_insert_ne | by apply lookup_delete_ne].
Qed.

Lemma normalize_loop_fails items kwargs k v e :
  (k, v) ∈ items -> coerce v = Err e -> normalize_loop items kwargs = Err ValueError.
Proof.
  revert kwargs. induction items as [| [k0 v0] items IH]; intros kwargs Hin Hv.
  - by apply elem_of_nil in Hin.
  - simpl. rewrite normalize_item_coerce.
    destruct (coerce v0) as [c0|e0] eqn:Hc0; simpl.
    + apply elem_of_cons in Hin as [[= -> ->] | Hin]; [congruence | by apply IH].
    + by rewrite (coerce_error _ _ Hc0).
Qed.

Lemma normalize_loop_succeeds items kwargs :
  (forall k v, (k, v) ∈ items -> exists c, coerce v = Ok c) ->
  exists out, normalize_loop items kwargs = Ok out.
Proof.
  revert kwargs. induction items as [| [k0 v0] items IH]; intros kwargs Hall.
  - by eexists.
  - simpl. rewrite normalize_item_coerce.
    destruct (Hall k0 v0) as [c0 ->]; [by left|]. simpl.
    apply IH. intros k v Hin. apply (Hall k v). by right.
Qed.

(** The loop treats each parameter on its own. *)
Lemma normalize_lookup kwargs out :
  normalize kwargs = Ok out ->
  forall k,
    match kwargs !! k with
    | Some v => exists c, coerce v = Ok c /\ out !! k = c
    | None => out !! k = None
    end.
Proof.
  intros Hnorm k. unfold normalize in Hnorm.
  destruct (normalize_loop_lookup _ (NoDup_fst_map_to_list kwargs) _ _ Hnorm k)
    as [Hin Hout].
  destruct (kwargs !! k) as [v|] eqn:Hk.
  - apply Hin. by apply elem_of_map_to_list.
  - rewrite Hout; [done|].
    intros ([k' v] & -> & Hin')%list_elem_of_fmap.
    simpl in *. apply elem_of_map_to_list in Hin'. congruence.
Qed.

Lemma normalize_fails kwargs k v e :
  kwargs !! k = Some v -> coerce v = Err e -> normalize kwargs = Err ValueError.
Proof.
  intros Hk Hv. eapply normalize_loop_fails; [|done].
  by apply elem_of_map_to_list.
Qed.

Lemma coerce_normalizable v : normalizable v = true -> exists c, coerce v = Ok c.
Proof.
  assert (forall x, in_utc x = true -> exists c, update_value x = Ok c) as Hone.
  { intros [] Hx; simpl; try by eexists.
    simpl in Hx. destruct (Datetime.non_utc d); [done | by eexists]. }
  unfold coerce. destruct v; simpl; intros Hv; try (by eexists).
  - destruct (Datetime.non_utc d); [done | by eexists].
  - assert (exists l, mapM update_value items = Ok l) as [l ->]; [|by eexists].
    induction items as [| x items IH]; [by eexists|].
    simpl in Hv. apply andb_prop in Hv as [Hx Hitems].
    destruct (Hone _ Hx) as [c Hc], (IH Hitems) as [l Hl].
    simpl. rewrite Hc. simpl. rewrite Hl. by eexists.
  - assert (exists l, mapM update_value (map (fun kv => VStr (fst kv)) items) = Ok l)
      as [l ->]; [|by eexists].
    induction items as [| x items [l Hl]]; [by eexists|].
    simpl. rewrite Hl. by eexists.
Qed.

Lemma normalize_succeeds kwargs :
  map_Forall (fun _ v => normalizable v = true) kwargs ->
  exists out, normalize kwargs = Ok out.
Proof.
  intros Hall. apply normalize_loop_succeeds. intros k v Hin.
  apply coerce_normalizable, (Hall k). by apply elem_of_map_to_list.
Qed.

Lemma lookup_foldr_delete (kwargs : gmap string pyval) (keys : list string) k :
  foldr delete kwargs keys !! k = if decide (k ∈ keys) then None else kwargs !! k.
Proof.
  induction keys as [| k0 keys IH]; cbn [foldr].
  - case_decide as Hin; [by apply elem_of_nil in Hin | done].
  - rewrite lookup_delete, IH.
    destruct (decide (k0 = k)) as [-> | Hne], (decide (k ∈ keys)) as [Hin | Hnin];
      case_decide as Hin'; try done.
    + exfalso. apply Hin'. by left.
    + exfalso. apply Hin'. by left.
    + exfalso. apply Hin'. by right.
    + by apply elem_of_cons in Hin' as [-> | ?].
Qed.

Lemma strip_magic_lookup kwargs k :
  strip_magic kwargs !! k = if decide (k ∈ magic) then None else kwargs !! k.
Proof. apply lookup_foldr_delete. Qed.

Lemma inject_defaults_lookup site action kwargs k :
  k ∉ protocol_keys -> inject_defaults site action kwargs !! k = kwargs !! k.
Proof.
  unfold protocol_keys. intros Hk. unfold inject_defaults.
  assert (k ≠ "action" /\ k ≠ "format" /\ k ≠ "formatversion" /\ k ≠ "maxlag")
    as (? & ? & ? & ?) by set_solver.
  destruct (maxlag site); repeat destruct (has_key _ _);
    by rewrite ?lookup_insert_ne.
Qed.

(** How the result of the loop reaches the wire: the payload is what the
    loop makes of the parameters without the magic ones, except under
    the keys that lines 240-245 set. *)
Lemma prepare_call_payload site action kwargs method kw :
  prepare_call site action kwargs = Ok (method, kw) ->
  exists out,
    normalize (strip_magic kwargs) = Ok out
    /\ payload kw = inject_defaults site action out
    /\ forall k, k ∉ protocol_keys -> payload kw !! k = out !! k.
Proof.
  unfold prepare_call. fold (strip_magic kwargs).
  destruct (match kwargs !! "EXTRAS" with
            | Some (VDict _ _) | None => Ok tt
            | Some _ => Err TypeError
            end) as [[]|]; [|discriminate]. simpl.
  destruct (normalize (strip_magic kwargs)) as [out|]; [|discriminate].
  simpl. intros [= _ <-]. exists out. split; [done|]. split; [done|].
  intros k Hk. simpl. by apply inject_defaults_lookup.
Qed.

(** A parameter that the loop rejects makes [_prepare_call] fail: with
    the [ValueError] of line 217, unless line 201 failed before on an
    [EXTRAS] that is no dict. *)
Lemma prepare_call_fails site action kwargs k v e :
  kwargs !! k = Some v -> k ∉ magic -> coerce v = Err e ->
  exists e',
    prepare_call site action kwargs = Err e'
    /\ (kwargs !! "EXTRAS" = None -> e' = ValueError).
Proof.
  intros Hk Hmagic Hv. unfold prepare_call. fold (strip_magic kwargs).
  assert (normalize (strip_magic kwargs) = Err ValueError) as ->.
  { apply (normalize_fails _ k v e); [|done].
    by rewrite strip_magic_lookup, decide_False. }
  destruct (kwargs !! "EXTRAS") as [[]|]; simpl; eexists; split; try reflexivity;
    discriminate || done.
Qed.

Lemma prepare_call_succeeds site action kwargs :
  map_Forall (fun _ v => normalizable v = true) kwargs ->
  kwargs !! "EXTRAS" = None ->
  exists method kw,
    prepare_call site action kwargs = Ok (method, kw) /\ extras kw = None.
Proof.
  intros Hall Hextras. unfold prepare_call. fold (strip_magic kwargs).
  rewrite Hextras. simpl.
  destruct (normalize_succeeds (strip_magic kwargs)) as [out ->];
    [|by eexists _, _].
  intros k v Hk. rewrite strip_magic_lookup in Hk.
  case_decide; [discriminate | by apply (Hall k)].
Qed.

Lemma pretty_N_go_length x s :
  (String.length s <= String.length (pretty_N_go x s))%nat.
Proof.
  revert s. induction (N.lt_wf_0 x) as [x _ IH]; intros s.
  assert (x = 0 \/ 0 < x)%N as [-> | Hx] by lia; [by rewrite pretty_N_go_0|].
  rewrite pretty_N_go_step by done.
  etrans; [|apply IH; by apply N.div_lt]. simpl. lia.
Qed.

Lemma pad2_two_digits n : Datetime.pad2 n = two_digits n.
Proof.
  unfold Datetime.pad2, Datetime.zero_pad, two_digits.
  destruct (Nat.ltb_spec n 10) as [Hlt | Hge].
  - do 10 (destruct n as [| n]; [reflexivity|]). lia.
  - replace (2 - String.length (pretty n))%nat with 0%nat; [done|].
    unfold pretty, pretty_nat, pretty, pretty_N.
    destruct (decide (N.of_nat n = 0%N)); [lia|].
    rewrite pretty_N_go_step by lia.
    rewrite pretty_N_go_step by (apply N.div_str_pos; lia).
    match goal with
    | |- context [pretty_N_go ?x ?s] => pose proof (pretty_N_go_length x s) as Hlen
    end.
    simpl in Hlen. lia.
Qed.

Lemma strftime_timestamp d : Datetime.strftime d = timestamp d.
Proof.
  unfold Datetime.strftime, timestamp. rewrite !pad2_two_digits.
  reflexivity.
Qed.

Lemma update_value_wire_text v c : update_value v = Ok c -> c = wire_text v.
Proof.
  destruct v as [| [] | | | d | | |]; simpl; try by intros [= <-].
  destruct (Datetime.non_utc d); [discriminate|].
  intros [= <-]. by rewrite strftime_timestamp.
Qed.

Lemma omap_id_cons {A B} (f : A -> option B) v l l' :
  omap id l' = omap f l -> omap id (f v :: l') = omap f (v :: l).
Proof. intros Heq. cbn. cbn in Heq. destruct (f v); cbn; congruence. Qed.

Lemma mapM_update_value_wire_text items coerced :
  mapM update_value items = Ok coerced -> omap id coerced = omap wire_text items.
Proof.
  revert coerced. induction items as [| v items IH]; intros coerced; simpl.
  - by intros [= <-].
  - destruct (update_value v) as [c|] eqn:Hc; [|discriminate]. simpl.
    destruct (mapM update_value items) as [l|]; [|discriminate]. simpl.
    intros [= <-]. rewrite (update_value_wire_text _ _ Hc).
    by apply omap_id_cons, IH.
Qed.

Lemma mapM_update_value_fails items d :
  VDatetime d ∈ items -> Datetime.non_utc d = true ->
  mapM update_value items = Err ValueError.
Proof.
  intros Hin Hd. induction items as [| x items IH]; [by apply elem_of_nil in Hin|].
  simpl. destruct (update_value x) as [c|e] eqn:Hx; simpl.
  - apply elem_of_cons in Hin as [<- | Hin].
    + simpl in Hx. rewrite Hd in Hx. discriminate.
    + by rewrite IH.
  - by rewrite (update_value_error _ _ Hx).
Qed.

(** C5, as amended. On the wire, a parameter that is neither a magic
    directive nor one of the keys that lines 240-245 set travels as
    follows: a sequence as the pipe-join of what its elements become,
    without those that become nothing ([None] and [False]); a [False]
    and a [None] not at all; a [True] as the marker ['1']; a naive or
    zero-offset [datetime] as its timestamp, the year unpadded and the
    other fields on two digits. A [datetime] whose offset is not zero,
    as the value or in a sequence, makes [_prepare_call] fail, with
    [ValueError] when the call has no [EXTRAS]. The preparation
    succeeds when no such [datetime] occurs and there is no [EXTRAS]. *)
Theorem parameter_normalization :
  forall site action kwargs k v,
    kwargs !! k = Some v ->
    k ∉ magic ->
    k ∉ protocol_keys ->
    (forall method kw,
        prepare_call site action kwargs = Ok (method, kw) ->
        (forall items,
            iterable v = Some items ->
            payload kw !! k = Some (VStr (String.concat "|" (omap wire_text items))))
        /\ (v = VBool false \/ v = VNone -> payload kw !! k = None)
        /\ (v = VBool true -> payload kw !! k = Some (VStr "1"))
        /\ (forall d, v = VDatetime d ->
              (tzinfo d = None \/ tzinfo d = Some None \/ tzinfo d = Some (Some 0%Z))
              /\ payload kw !! k = Some (VStr (timestamp d))))
    /\ (forall d offset,
          v = VDatetime d \/ (exists items, iterable v = Some items /\ VDatetime d ∈ items) ->
          tzinfo d = Some (Some offset) -> offset <> 0%Z ->
          exists e,
            prepare_call site action kwargs = Err e
            /\ (kwargs !! "EXTRAS" = None -> e = ValueError))
    /\ (map_Forall (fun _ v => normalizable v = true) kwargs ->
        kwargs !! "EXTRAS" = None ->
        exists method kw, prepare_call site action kwargs = Ok (method, kw)).
Proof.
  intros site action kwargs k v Hk Hmagic Hproto. split; [|split].
  - intros method kw Hprep.
    destruct (prepare_call_payload _ _ _ _ _ Hprep) as (out & Hnorm & _ & Hwire).
    rewrite (Hwire k Hproto).
    pose proof (normalize_lookup _ _ Hnorm k) as Hl.
    rewrite strip_magic_lookup, decide_False, Hk in Hl by done.
    destruct Hl as (c & Hc & ->). unfold coerce in Hc.
    split; [|split; [|split]].
    + intros items Hseq. rewrite Hseq in Hc.
      destruct (mapM update_value items) as [coerced|] eqn:Hm; [|discriminate].
      injection Hc as <-. unfold pipe_join.
      by rewrite (mapM_update_value_wire_text _ _ Hm).
    + intros [-> | ->]; simpl in Hc; by injection Hc as <-.
    + intros ->. simpl in Hc. by injection Hc as <-.
    + intros d ->. simpl in Hc. unfold Datetime.non_utc in Hc.
      destruct (tzinfo d) as [[offset|]|] eqn:Htz.
      * destruct (Z.eqb_spec offset 0) as [-> | Hne]; simpl in Hc; [|discriminate].
        injection Hc as <-. rewrite strftime_timestamp. split; [|done].
        right. by right.
      * injection Hc as <-. rewrite strftime_timestamp. split; [|done].
        right. by left.
      * injection Hc as <-. rewrite strftime_timestamp. split; [|done]. by left.
  - intros d offset Hv Htz Hoff.
    assert (Datetime.non_utc d = true) as Hd.
    { unfold Datetime.non_utc. rewrite Htz. by destruct (Z.eqb_spec offset 0). }
    apply (prepare_call_fails _ _ _ k v ValueError Hk Hmagic). unfold coerce.
    destruct Hv as [-> | (items & Hseq & Hin)].
    + simpl. by rewrite Hd.
    + rewrite Hseq. by rewrite (mapM_update_value_fails _ _ Hin Hd).
  - intros Hall Hextras.
    destruct (prepare_call_succeeds site action kwargs Hall Hextras)
      as (method & kw & Hprep & _).
    by exists method, kw.
Qed.

(** C5 as stated fails on the keys that [_prepare_call] sets or takes
    for itself: [maxlag=False] goes out as the default [maxlag] of the
    client, [format=True] as ['json'], and a [True] under the magic
    [POST] is not on the wire at all. *)
Lemma protocol_and_magic_keys_are_not_normalized :
  let wire kwargs k :=
    match prepare_call default_site "query" kwargs with
    | Ok (_, kw) => payload kw !! k
    | Err _ => None
    end in
  wire {[ "maxlag" := VBool false ]} "maxlag" = Some (VInt 30)
  /\ wire {[ "format" := VBool true ]} "format" = Some (VStr "json")
  /\ wire {[ "POST" := VBool true ]} "POST" = None.
Proof. vm_compute. repeat split. Qed.

(** The timestamps of two instants, on the wire. *)
Example timestamps_on_the_wire :
  let wire d :=
    match prepare_call default_site "query" {[ "rvstart" := VDatetime d ]} with
    | Ok (_, kw) => payload kw !! "rvstart"
    | Err _ => None
    end in
  wire {| year := 2021; month := 3; day := 4; hour := 5; minute := 6; second := 7;
          tzinfo := None |}
  = Some (VStr "2021-03-04T05:06:07Z")
  /\ wire {| year := 999; month := 1; day := 2; hour := 3; minute := 4; second := 5;
             tzinfo := Some (Some 0%Z) |}
     = Some (VStr "999-01-02T03:04:05Z").
Proof. vm_compute. repeat split. Qed.

(** C4, as amended. A parameter that is no sequence and whose coercion
    yields [None] has its key deleted by the loop, and the key is absent
    from the payload on the wire unless it is one that lines 240-245
    set; a sequence keeps its key and travels as the pipe-join of the
    coerced elements that are not [None], which is the empty string when
    all of them are [None]. *)
Theorem absent_values_and_empty_sequences :
  forall site action kwargs method kw k v,
    prepare_call site action kwargs = Ok (method, kw) ->
    kwargs !! k = Some v ->
    k ∉ magic ->
    k ∉ protocol_keys ->
    (iterable v = None -> update_value v = Ok None -> payload kw !! k = None)
    /\ (forall items,
          iterable v = Some items ->
          exists coerced,
            mapM update_value items = Ok coerced
            /\ payload kw !! k = Some (VStr (pipe_join coerced))
            /\ (Forall (fun c => c = None) coerced ->
                payload kw !! k = Some (VStr EmptyString))).
Proof.
  intros site action kwargs method kw k v Hprep Hk Hmagic Hproto.
  destruct (prepare_call_payload _ _ _ _ _ Hprep) as (out & Hnorm & _ & Hwire).
  rewrite (Hwire k Hproto).
  pose proof (normalize_lookup _ _ Hnorm k) as Hl.
  rewrite strip_magic_lookup, decide_False, Hk in Hl by done.
  destruct Hl as (c & Hc & ->). unfold coerce in Hc. split.
  - intros Hscalar Hnone. rewrite Hscalar, Hnone in Hc. by injection Hc as <-.
  - intros items Hseq. rewrite Hseq in Hc.
    destruct (mapM update_value items) as [coerced|]; [|discriminate].
    injection Hc as <-. exists coerced. split; [done|]. split; [done|].
    intros Hall. do 2 f_equal. unfold pipe_join.
    replace (omap id coerced) with (@nil string); [done|].
    induction Hall as [| c coerced -> _ IH]; [done | by simpl].
Qed.

(** C4 as stated fails on a sequence whose elements all coerce to
    [None]: its key stays, and travels with the empty string. *)
Lemma all_none_sequence_is_sent_as_empty_string :
  match prepare_call default_site "query"
          {[ "titles" := VSeq "[None]" [VNone] ]} with
  | Ok (_, kw) => payload kw !! "titles"
  | Err _ => None
  end = Some (VStr EmptyString).
Proof. vm_compute. reflexivity. Qed.

(** ** Calls *)

Lemma plain_binds kwargs : plain kwargs -> binds kwargs = true.
Proof.
  intros [_ Hres]. unfold binds, has_key.
  rewrite (Hres "action"), (Hres "self"); [done | |];
    apply (bool_decide_unpack _); by vm_compute.
Qed.

Lemma plain_no_extras kwargs : plain kwargs -> kwargs !! "EXTRAS" = None.
Proof. intros [_ Hres]. apply Hres. apply (bool_decide_unpack _). by vm_compute. Qed.

(** A call with plain parameters enters the loop of lines 128-177 with
    the request that [_prepare_call] built. *)
Lemma call_plain site action kwargs :
  plain kwargs ->
  exists method kw,
    prepare_call site action kwargs = Ok (method, kw)
    /\ extras kw = None
    /\ forall script,
         call site action kwargs script = call_loop site method kw 0 0 script.
Proof.
  intros Hplain.
  destruct (prepare_call_succeeds site action kwargs (proj1 Hplain)
              (plain_no_extras _ Hplain)) as (method & kw & Hprep & Hextras).
  exists method, kw. split; [done|]. split; [done|].
  intros script. unfold call. by rewrite (plain_binds _ Hplain), Hprep.
Qed.

(** C1, as amended. When the maxlag retry budget is exhausted, that is
    when the server reports [error.code == 'maxlag'] once more than
    [retry_on_lag_error >= 0] allows, the call raises the server-API
    error that carries the [error] payload of the last response, after
    one back-off per retry, provided that nothing else fails on the way:
    the parameters are ones a call takes, the [Retry-After] header of
    each response is absent or accepted by [float], the back-offs asked
    for and the pause before a request, if one is set, are durations
    from 0 to 10^9 seconds.  And no call ever returns a body that has an
    [error] member as its value. *)
Theorem exhausted_maxlag_raises_api_error :
  forall site action kwargs replies seconds last error after rest,
    plain kwargs ->
    paced site ->
    Z.of_nat (length replies) = retry_on_lag_error site ->
    Forall2 (fun r s => brief s /\ exists error, maxlag_reply r error s) replies seconds ->
    maxlag_reply last error after ->
    (exists evs,
       call site action kwargs (map Responds (replies ++ [last]) ++ rest)
       = ((evs, Raised (ApiError "Server API Error" error)), rest)
       /\ sleeps LagBackoff evs = seconds)
    /\ forall kwargs' script evs data rest',
         call site action kwargs' script = ((evs, Done data), rest') ->
         Py.contains data "error" = Ok false.
Proof.
  intros site action kwargs replies seconds last error after rest
    Hplain Hpaced Hlen Hreplies Hlast.
  split; [|intros kwargs' script evs data rest'; apply call_returns_no_error].
  destruct (call_plain site action kwargs Hplain) as (method & kw & _ & _ & ->).
  rewrite map_app, <- app_assoc.
  destruct (call_loop_retry_lag site method kw _ _ Hpaced Hreplies 0%Z 0%Z
              (map Responds [last] ++ rest)) as (evs & Hlag & _ & ->); [lia|].
  simpl map. simpl app.
  rewrite (call_loop_maxlag_exhausted _ _ _ _ _ _ _ _ _ Hpaced Hlast)
    by (unfold exhausted; lia).
  rewrite bind_done. simpl. eexists. split; [reflexivity|].
  rewrite !sleeps_app, Hlag, sleeps_pacing_lag. simpl.
  by rewrite !sleeps_logged, !app_nil_r.
Qed.

(** C1 as stated fails when the response that exhausts the budget
    carries a [Retry-After] that is no number, such as an HTTP date: the
    call then raises [ValueError], not the server-API error. *)
Lemma exhausted_maxlag_with_http_date_raises_value_error :
  snd (fst (call impatient_site "query" ∅
              [Responds (reply [("Retry-After", "Fri, 31 Dec 1999 23:59:59 GMT")]
                           maxlag_body)]))
  = Raised ValueError.
Proof. vm_compute. reflexivity. Qed.

(** It fails as well when a retried response asks for a back-off that
    [time.sleep] refuses: a negative one and one that is not a number
    raise [ValueError], an infinite one [OverflowError], whatever the
    server answers next. *)
Example refused_back_off_ends_the_call :
  let outcome_with value :=
    snd (fst (call default_site "query" ∅
                [Responds (reply [("Retry-After", value)] maxlag_body);
                 Responds (reply [] maxlag_body)])) in
  outcome_with "-1" = Raised ValueError
  /\ outcome_with "nan" = Raised ValueError
  /\ outcome_with "inf" = Raised OverflowError.
Proof. vm_compute. repeat split. Qed.

(** C3, as amended. When the server reports maxlag K times and then
    answers successfully, with K within the maxlag retry budget, the
    call sleeps exactly K times to back off, each time for the seconds
    of that response's [Retry-After] (5 seconds when the header is
    absent), never to back off from a connection failure, and returns
    the final successful body, provided that nothing else fails on the
    way: the parameters are ones a call takes, each [Retry-After] is
    absent or a number of seconds from 0 to 10^9, so is the pause before
    a request if one is set, and the warnings of the final body, if the
    logger takes them, are of the shape that lines 183-186 read.  A
    [Retry-After] that [float] does not accept is an error, not 5
    seconds. *)
Theorem maxlag_retries_then_success :
  forall site action kwargs replies seconds final d rest,
    plain kwargs ->
    paced site ->
    (retry_on_lag_error site < 0
     \/ Z.of_nat (length replies) <= retry_on_lag_error site)%Z ->
    Forall2 (fun r s => brief s /\ exists error, maxlag_reply r error s) replies seconds ->
    ok final = true ->
    json_body final = Some (JObj d) ->
    Py.dict_mem d "error" = false ->
    loggable site d ->
    (exists evs,
       call site action kwargs (map Responds replies ++ Responds final :: rest)
       = ((evs, Done (JObj d)), rest)
       /\ sleeps LagBackoff evs = seconds
       /\ sleeps ConnBackoff evs = [])
    /\ forall r,
         retry_after_of r =
           match headers_get (headers r) "Retry-After" with
           | None => Ok (Finite 5)
           | Some value =>
               match Builtins.float_of_string value with
               | Some s => Ok s
               | None => Err ValueError
               end
           end.
Proof.
  intros site action kwargs replies seconds final d rest
    Hplain Hpaced Hbudget Hreplies Hok Hbody Herr Hwarn.
  split; [|intros r; unfold retry_after_of; by destruct (headers_get _ _)].
  destruct (call_plain site action kwargs Hplain) as (method & kw & _ & _ & ->).
  destruct (call_loop_retry_lag site method kw _ _ Hpaced Hreplies 0%Z 0%Z
              (Responds final :: rest)) as (evs & Hlag & Hconn & ->); [lia|].
  destruct (call_loop_success site method kw (0 + Z.of_nat (length replies))
              (0 + Z.of_nat (length replies)) final d rest Hpaced)
    as (evs' & -> & _ & _ & Hs); [done|].
  rewrite bind_done. simpl. eexists. split; [reflexivity|].
  rewrite !sleeps_app, !Hs, Hlag, Hconn, sleeps_pacing_lag, sleeps_pacing_conn.
  by rewrite app_nil_r.
Qed.

(** C3 as stated fails on a [Retry-After] header that is no number: the
    call does not sleep 5 seconds and go on, it raises [ValueError] and
    leaves the successful response unused. *)
Lemma unparseable_retry_after_raises_value_error :
  let run :=
    call default_site "query" ∅
      [Responds (reply [("Retry-After", "soon")] maxlag_body);
       Responds (reply [] (JObj [("batchcomplete", JBool true)]))] in
  snd (fst run) = Raised ValueError
  /\ sleeps LagBackoff (fst (fst run)) = []
  /\ snd run = [Responds (reply [] (JObj [("batchcomplete", JBool true)]))].
Proof. vm_compute. repeat split. Qed.

(** Nor is the final body returned when its warnings are not of the
    shape that lines 183-186 read: on a list of warnings, with a logger
    that takes warnings, the call raises [AttributeError]. *)
Example list_of_warnings_raises_attribute_error :
  snd (fst (call default_site "query" ∅
              [Responds (reply [] (JObj [("batchcomplete", JBool true);
                                         ("warnings", JArr [JStr "deprecated"])]))]))
  = Raised AttributeError.
Proof. vm_compute. reflexivity. Qed.

(** ** The continuation driver *)

Lemma call_success site action req r d rest :
  plain req ->
  paced site ->
  success_reply site r d ->
  exists evs,
    call site action req (Responds r :: rest) = ((evs, Done (JObj d)), rest)
    /\ yields evs = [] /\ length (requests evs) = 1%nat.
Proof.
  intros Hreq Hpaced Hr.
  destruct (call_plain site action req Hreq) as (method & kw & _ & _ & ->).
  destruct (call_loop_success site method kw 0 0 r d rest Hpaced Hr)
    as (evs & -> & Hy & Hq & _).
  exists evs. by rewrite Hq.
Qed.

Lemma of_json_in_utc v : in_utc (of_json v) = true.
Proof. by destruct v. Qed.

Lemma of_json_normalizable v : normalizable (of_json v) = true.
Proof.
  destruct v; try done; simpl.
  induction items as [| x items IH]; [done|].
  simpl. by rewrite of_json_in_utc.
Qed.

Lemma lookup_foldl_insert (continue : list (string * json))
    (kwargs : gmap string pyval) k :
  Py.dict_get continue k = None ->
  foldl (fun req kv => <[fst kv := of_json (snd kv)]> req) kwargs continue !! k
  = kwargs !! k.
Proof.
  revert kwargs. induction continue as [| [k0 v0] continue IH]; intros kwargs; [done|].
  simpl. destruct (String.eqb_spec k0 k) as [-> | Hne]; [discriminate|].
  intros Hget. rewrite (IH _ Hget). by apply lookup_insert_ne.
Qed.

Lemma next_request_plain kwargs continue adjustments :
  plain kwargs ->
  plain_continue continue ->
  (forall adj, adjustments = Some adj -> plain adj) ->
  plain (next_request kwargs continue adjustments).
Proof.
  intros [Hkwargs Hres] Hcont Hadj. unfold next_request.
  assert (plain (foldl (fun req kv => <[fst kv := of_json (snd kv)]> req) kwargs continue))
    as [Hreq Hres'].
  { split.
    - clear Hres Hcont. revert kwargs Hkwargs.
      induction continue as [| [k v] continue IH]; intros kwargs Hkwargs; [done|].
      simpl. apply IH. apply map_Forall_insert_2; [|done].
      apply of_json_normalizable.
    - intros k Hk. rewrite lookup_foldl_insert by by apply Hcont. by apply Hres. }
  destruct adjustments as [adj|]; [|done].
  destruct (Hadj adj eq_refl) as [Hadj1 Hadj2]. split.
  - by apply map_Forall_union_2.
  - intros k Hk. apply lookup_union_None. split; [by apply Hadj2 | by apply Hres'].
Qed.

Lemma after_call_continue action kwargs send seen d page continue :
  Py.dict_get d action = Some page ->
  Py.dict_get d "continue" = Some (JObj continue) ->
  after_call action kwargs send seen (JObj d)
  = ([Yield page],
     Done (Some (next_request kwargs continue (send (seen ++ [page])), seen ++ [page]))).
Proof.
  intros Hpage Hcont. unfold after_call. simpl. unfold Py.dict_mem.
  rewrite Hpage, Hcont. reflexivity.
Qed.

Lemma after_call_stop action kwargs send seen d page :
  Py.dict_get d action = Some page ->
  Py.dict_mem d "continue" = false ->
  after_call action kwargs send seen (JObj d) = ([Yield page], Done None).
Proof.
  intros Hpage Hcont. unfold after_call. simpl. rewrite Hcont.
  unfold Py.dict_mem. rewrite Hpage. reflexivity.
Qed.

(** A round of the driver on a response that carries a continuation. *)
Lemma iterate_loop_continue site action kwargs send seen req fuel r d page continue rest :
  well_behaved send ->
  paced site ->
  plain kwargs ->
  plain req ->
  page_reply action r d page ->
  loggable site d ->
  Py.dict_get d "continue" = Some (JObj continue) ->
  plain_continue continue ->
  exists evs req',
    yields evs = [page] /\ length (requests evs) = 1%nat
    /\ plain req'
    /\ iterate_loop (S fuel) site action kwargs send seen req (Responds r :: rest)
       = let '(m, rest') :=
           iterate_loop fuel site action kwargs send (seen ++ [page]) req' rest in
         (((evs, Done tt) : M unit) ≫= (fun _ => m), rest').
Proof.
  intros Hsend Hpaced Hkwargs Hreq (Hok & Hbody & Herr & Hpage) Hlog Hcont Hplain.
  destruct (call_success site action req r d rest Hreq Hpaced)
    as (evs & Hcall & Hy & Hq); [done|].
  exists (evs ++ [Yield page]),
         (next_request kwargs continue (send (seen ++ [page]))).
  rewrite yields_app, requests_app, length_app, Hy, Hq.
  split; [done|]. split; [done|]. split.
  { apply next_request_plain; [done | done |]. intros adj Hadj. by eapply Hsend. }
  cbn [iterate_loop]. rewrite Hcall, bind_done.
  rewrite (after_call_continue _ _ _ _ _ _ _ Hpage Hcont). reflexivity.
Qed.

(** A round of the driver on a response that carries no continuation. *)
Lemma iterate_loop_stop site action kwargs send seen req fuel r d page rest :
  paced site ->
  plain req ->
  page_reply action r d page ->
  loggable site d ->
  Py.dict_mem d "continue" = false ->
  exists evs,
    yields evs = [page] /\ length (requests evs) = 1%nat
    /\ iterate_loop (S fuel) site action kwargs send seen req (Responds r :: rest)
       = ((evs, Done tt), rest).
Proof.
  intros Hpaced Hreq (Hok & Hbody & Herr & Hpage) Hlog Hcont.
  destruct (call_success site action req r d rest Hreq Hpaced)
    as (evs & Hcall & Hy & Hq); [done|].
  exists (evs ++ [Yield page]).
  rewrite yields_app, requests_app, length_app, Hy, Hq.
  split; [done|]. split; [done|].
  cbn [iterate_loop]. rewrite Hcall, bind_done.
  rewrite (after_call_stop _ _ _ _ _ _ Hpage Hcont). reflexivity.
Qed.

(** A round of the driver when the script is used up: the request is
    sent and no answer comes. *)
Lemma iterate_loop_waits site action kwargs send seen req fuel :
  paced site ->
  plain req ->
  exists evs,
    yields evs = [] /\ length (requests evs) = 1%nat
    /\ iterate_loop (S fuel) site action kwargs send seen req [] = ((evs, Pending), []).
Proof.
  intros Hpaced Hreq. cbn [iterate_loop].
  destruct (call_plain site action req Hreq) as (method & kw & _ & _ & ->).
  cbn [call_loop]. rewrite (pacing_events _ Hpaced). simpl.
  eexists. split; [|split; [|reflexivity]].
  - rewrite yields_app. unfold pacing. by destruct (Builtins.truthy _).
  - rewrite requests_app, length_app. unfold pacing. by destruct (Builtins.truthy _).
Qed.

Lemma reserved_keyword_cases k :
  k ∈ reserved_keywords -> k = "action" \/ k = "self" \/ k = "EXTRAS".
Proof.
  unfold reserved_keywords. rewrite !elem_of_cons, elem_of_nil. tauto.
Qed.

Lemma seeded_plain kwargs : plain kwargs -> plain (seeded kwargs).
Proof.
  intros [Hkwargs Hres]. unfold seeded. split.
  - apply map_Forall_insert_2; [done|].
    destruct (has_key kwargs "continue"); [done|]. by apply map_Forall_insert_2.
  - intros k Hk. pose proof (Hres k Hk) as Hnone.
    apply reserved_keyword_cases in Hk.
    rewrite lookup_insert_ne by (intros <-; by destruct Hk as [? | [? | ?]]).
    destruct (has_key kwargs "continue"); [done|].
    rewrite lookup_insert_ne by (intros <-; by destruct Hk as [? | [? | ?]]).
    done.
Qed.

Lemma iterate_seeded site action kwargs send script :
  plain kwargs ->
  has_key kwargs "rawcontinue" = false ->
  has_key kwargs "formatversion" = false ->
  iterate site action kwargs send script
  = iterate_loop (S (length script)) site action (seeded kwargs) send []
      (seeded kwargs) script.
Proof.
  intros Hplain Hraw Hver. unfold iterate.
  by rewrite (plain_binds _ Hplain), Hraw, Hver.
Qed.

(** C8, as amended. On three successful responses of which the first
    two carry a [continue] object and each carries the payload key of
    the action, the driver sends three requests, yields the three
    payloads in order and ends; had the third response carried a
    [continue] object too, it would have sent a fourth request instead
    of ending: only the absence of the key ends the stream.  This holds
    when every request can be made and every body returned: the
    parameters and the adjustments of the consumer are ones a call
    takes, no [continue] object has a key [action], [self] or [EXTRAS],
    each response has a status that is no error status and a body with
    no [error] member, whose warnings can be logged, and the pause
    before a request, if one is set, is a duration from 0 to 10^9
    seconds. *)
Theorem three_responses_yield_three_pages :
  forall site action kwargs send r1 d1 page1 continue1 r2 d2 page2 continue2
         r3 d3 page3,
    has_key kwargs "rawcontinue" = false ->
    has_key kwargs "formatversion" = false ->
    plain kwargs ->
    well_behaved send ->
    paced site ->
    page_reply action r1 d1 page1 ->
    page_reply action r2 d2 page2 ->
    page_reply action r3 d3 page3 ->
    loggable site d1 -> loggable site d2 -> loggable site d3 ->
    Py.dict_get d1 "continue" = Some (JObj continue1) ->
    plain_continue continue1 ->
    Py.dict_get d2 "continue" = Some (JObj continue2) ->
    plain_continue continue2 ->
    (Py.dict_mem d3 "continue" = false ->
     exists evs,
       iterate site action kwargs send [Responds r1; Responds r2; Responds r3]
       = ((evs, Done tt), [])
       /\ yields evs = [page1; page2; page3]
       /\ length (requests evs) = 3%nat)
    /\ (forall continue3,
          Py.dict_get d3 "continue" = Some (JObj continue3) ->
          plain_continue continue3 ->
          exists evs,
            iterate site action kwargs send [Responds r1; Responds r2; Responds r3]
            = ((evs, Pending), [])
            /\ yields evs = [page1; page2; page3]
            /\ length (requests evs) = 4%nat).
Proof.
  intros site action kwargs send r1 d1 page1 continue1 r2 d2 page2 continue2
    r3 d3 page3 Hraw Hver Hkwargs Hsend Hpaced H1 H2 H3 Hl1 Hl2 Hl3 Hc1 Hp1 Hc2 Hp2.
  rewrite (iterate_seeded _ _ _ _ _ Hkwargs Hraw Hver). cbn [length].
  pose proof (seeded_plain _ Hkwargs) as Hseed.
  destruct (iterate_loop_continue site action (seeded kwargs) send [] (seeded kwargs)
              3 r1 d1 page1 continue1 [Responds r2; Responds r3]
              Hsend Hpaced Hseed Hseed H1 Hl1 Hc1 Hp1)
    as (evs1 & req1 & Hy1 & Hq1 & Hreq1 & ->).
  destruct (iterate_loop_continue site action (seeded kwargs) send ([] ++ [page1]) req1
              2 r2 d2 page2 continue2 [Responds r3]
              Hsend Hpaced Hseed Hreq1 H2 Hl2 Hc2 Hp2)
    as (evs2 & req2 & Hy2 & Hq2 & Hreq2 & ->).
  split.
  - intros Hstop.
    destruct (iterate_loop_stop site action (seeded kwargs) send
                (([] ++ [page1]) ++ [page2]) req2 1 r3 d3 page3 [] Hpaced Hreq2 H3 Hl3
                Hstop)
      as (evs3 & Hy3 & Hq3 & ->).
    rewrite !bind_done. simpl. eexists. split; [reflexivity|].
    rewrite !yields_app, !requests_app, !length_app, Hy1, Hy2, Hy3, Hq1, Hq2, Hq3.
    done.
  - intros continue3 Hc3 Hp3.
    destruct (iterate_loop_continue site action (seeded kwargs) send
                (([] ++ [page1]) ++ [page2]) req2 1 r3 d3 page3 continue3 []
                Hsend Hpaced Hseed Hreq2 H3 Hl3 Hc3 Hp3)
      as (evs3 & req3 & Hy3 & Hq3 & Hreq3 & ->).
    destruct (iterate_loop_waits site action (seeded kwargs) send
                ((([] ++ [page1]) ++ [page2]) ++ [page3]) req3 0 Hpaced Hreq3)
      as (evs4 & Hy4 & Hq4 & ->).
    rewrite !bind_done. simpl. eexists. split; [reflexivity|].
    rewrite !yields_app, !requests_app, !length_app,
      Hy1, Hy2, Hy3, Hy4, Hq1, Hq2, Hq3, Hq4.
    done.
Qed.

(** C8 as stated fails when a [continue] object has a key that names a
    parameter of [__call__]: line 315 passes the keys as keywords, and
    with the key [action] the second call raises [TypeError].  The
    driver then yields one page, not three, and leaves the two other
    responses unused. *)
Lemma continue_with_the_key_action_raises_type_error :
  let page n := JObj [("pages", JArr [JObj [("pageid", JInt n)]])] in
  let r1 := reply [] (JObj [("query", page 1);
                            ("continue", JObj [("action", JStr "x")])]) in
  let r2 := reply [] (JObj [("query", page 2);
                            ("continue", JObj [("gapcontinue", JStr "B")])]) in
  let r3 := reply [] (JObj [("query", page 3)]) in
  let run := iterate default_site "query" ∅ (fun _ => None)
               [Responds r1; Responds r2; Responds r3] in
  snd (fst run) = Raised TypeError
  /\ yields (fst (fst run)) = [page 1]
  /\ snd run = [Responds r2; Responds r3].
Proof. vm_compute. repeat split. Qed.

(** What line 323 takes for a continuation: a mapping, and what
    [dict.update] takes besides.  A list of pairs is taken as a mapping
    is; a string that is not empty is refused with [ValueError], a
    number with [TypeError]. *)
Example continue_values :
  let outcome_with continue :=
    let r1 := reply [] (JObj [("query", JInt 1); ("continue", continue)]) in
    let r2 := reply [] (JObj [("query", JInt 2)]) in
    let run := iterate default_site "query" ∅ (fun _ => None)
                 [Responds r1; Responds r2] in
    (yields (fst (fst run)), snd (fst run)) in
  outcome_with (JArr [JArr [JStr "gapcontinue"; JStr "B"]]) = ([JInt 1; JInt 2], Done tt)
  /\ outcome_with (JStr "ab") = ([JInt 1], Raised ValueError)
  /\ outcome_with (JInt 7) = ([JInt 1], Raised TypeError).
Proof. vm_compute. repeat split. Qed.

(** ** Dictionaries *)

Lemma dict_get_set {A} (d : list (string * A)) k v k' :
  Py.dict_get (Py.dict_set d k v) k'
  = if String.eqb k k' then Some v else Py.dict_get d k'.
Proof.
  induction d as [| [k0 v0] d IH]; simpl; [done|].
  destruct (String.eqb_spec k0 k) as [-> | Hk0]; simpl.
  - by destruct (String.eqb k k').
  - rewrite IH.
    destruct (String.eqb_spec k0 k') as [-> | Hk0'], (String.eqb_spec k k'); congruence.
Qed.

Lemma dict_get_None {A} (d : list (string * A)) k :
  Py.dict_get d k = None <-> k ∉ d.*1.
Proof.
  induction d as [| [k0 v0] d IH]; simpl.
  - split; [intros _; apply not_elem_of_nil | done].
  - rewrite not_elem_of_cons, <- IH.
    destruct (String.eqb_spec k0 k) as [-> | Hne].
    + split; [discriminate | by intros [? _]].
    + split; [intros ?; split; [congruence | done] | by intros [_ ?]].
Qed.

Lemma dict_get_elem_of {A} (d : list (string * A)) k v :
  NoDup d.*1 -> (k, v) ∈ d -> Py.dict_get d k = Some v.
Proof.
  induction d as [| [k0 v0] d IH]; intros Hnodup Hin.
  - by apply elem_of_nil in Hin.
  - rewrite fmap_cons in Hnodup. apply NoDup_cons in Hnodup as [Hk0 Hnodup].
    simpl in *. apply elem_of_cons in Hin as [[= -> ->] | Hin].
    + by rewrite String.eqb_refl.
    + destruct (String.eqb_spec k0 k) as [-> | Hne]; [|by apply IH].
      exfalso. apply Hk0. apply list_elem_of_fmap. by exists (k, v).
Qed.

(** ** [_merge_page] *)

Lemma merge_page_object a items :
  merge_page (JObj a) (JObj items) = JObj <$> merge_members items a.
Proof.
  revert a. induction items as [| [k val] items IH]; intros a; [done|].
  change (merge_page (JObj a) (JObj ((k, val) :: items)))
    with (a' ← (has ← Py.contains (JObj a) k;
                if has : bool then
                  match val with
                  | JObj _ =>
                      old ← Py.getitem (JObj a) k;
                      merged ← merge_page old val;
                      Py.setitem (JObj a) k merged
                  | JArr xs =>
                      old ← Py.getitem (JObj a) k;
                      sum ← list_add old xs;
                      Py.setitem (JObj a) k sum
                  | _ => Py.setitem (JObj a) k val
                  end
                else Py.setitem (JObj a) k val);
          merge_page a' (JObj items)).
  cbn [merge_members]. unfold Py.contains, Py.dict_mem, Py.getitem, Py.setitem.
  destruct (Py.dict_get a k) as [old|] eqn:Hold; cbn -[merge_page merge_members].
  - destruct val; cbn -[merge_page merge_members]; try apply IH.
    + unfold list_add. by destruct old; cbn -[merge_page merge_members].
    + destruct (merge_page old (JObj members)); cbn -[merge_page merge_members];
        [apply IH | done].
  - apply IH.
Qed.

Lemma merge_members_lookup items :
  NoDup items.*1 ->
  forall a r,
    merge_members items a = Ok r ->
    forall k,
      (forall new, (k, new) ∈ items ->
                   exists x, merged_value (Py.dict_get a k) new = Ok x
                             /\ Py.dict_get r k = Some x)
      /\ (k ∉ items.*1 -> Py.dict_get r k = Py.dict_get a k).
Proof.
  induction items as [| [k0 v0] items IH]; intros Hnodup a r Hmerge k.
  - injection Hmerge as <-. split; [|done].
    intros new Hin. by apply elem_of_nil in Hin.
  - rewrite fmap_cons in Hnodup. apply NoDup_cons in Hnodup as [Hk0 Hnodup].
    simpl in Hk0. cbn [merge_members] in Hmerge.
    destruct (merged_value (Py.dict_get a k0) v0) as [x0|] eqn:Hx0; [|discriminate].
    cbn in Hmerge.
    destruct (IH Hnodup _ _ Hmerge k) as [Hin Hout].
    destruct (IH Hnodup _ _ Hmerge k0) as [_ Hout0].
    rewrite dict_get_set, String.eqb_refl in Hout0.
    split.
    + intros new [[= -> ->] | Hnew]%elem_of_cons.
      * exists x0. split; [done | by apply Hout0].
      * destruct (Hin new Hnew) as (x & Hx & Hr). exists x. split; [|done].
        rewrite dict_get_set in Hx.
        destruct (String.eqb_spec k0 k) as [-> | Hne]; [|done].
        exfalso. apply Hk0, list_elem_of_fmap. by exists (k, new).
    + intros [Hne Hnotin]%not_elem_of_cons. rewrite (Hout Hnotin), dict_get_set.
      simpl in Hne. destruct (String.eqb_spec k0 k); congruence.
Qed.

Lemma merge_members_succeeds items :
  NoDup items.*1 ->
  forall a,
    (forall k new, (k, new) ∈ items ->
                   exists x, merged_value (Py.dict_get a k) new = Ok x) ->
    exists r, merge_members items a = Ok r.
Proof.
  induction items as [| [k0 v0] items IH]; intros Hnodup a Hall; [by eexists|].
  rewrite fmap_cons in Hnodup. apply NoDup_cons in Hnodup as [Hk0 Hnodup].
  simpl in Hk0. cbn [merge_members].
  destruct (Hall k0 v0) as [x0 ->]; [by left|]. cbn.
  apply IH; [done|]. intros k new Hin. rewrite dict_get_set.
  destruct (String.eqb_spec k0 k) as [-> | Hne].
  - exfalso. apply Hk0, list_elem_of_fmap. by exists (k, new).
  - apply Hall. by right.
Qed.

Lemma merge_page_not_object a k val items :
  (forall d, a <> JObj d) ->
  merge_page a (JObj ((k, val) :: items)) = Err TypeError.
Proof.
  intros Ha. destruct a as [| b | n | s | xs | d]; try done.
  - cbn. destruct (Py.substring_of k s); by destruct val.
  - cbn. destruct (existsb _ xs); by destruct val.
  - by destruct (Ha d).
Qed.

(** ** Keys *)

Lemma eq_hashable a b :
  Py.hashable a = true ->
  Py.eq a b = true <-> Py.hashable b = true /\ key_of a = key_of b.
Proof.
  intros Ha. destruct a as [| x | m | s | |], b as [| y | n | t | |];
    try discriminate; simpl;
    try (split; [discriminate | intros [? ?]; discriminate]).
  - done.
  - destruct x, y; simpl; split; (done || by intros [_ [=]]).
  - destruct x; rewrite Z.eqb_eq; split; (intros ->; done) || (by intros [_ [= ->]]).
  - destruct y; rewrite Z.eqb_eq; split; (intros ->; done) || (by intros [_ [= ->]]).
  - rewrite Z.eqb_eq. split; [by intros -> | by intros [_ [= ->]]].
  - rewrite String.eqb_eq. split; [by intros -> | by intros [_ [= ->]]].
Qed.

Lemma eq_hashable_false a b :
  Py.hashable a = true -> key_of a <> key_of b -> Py.eq a b = false.
Proof.
  intros Ha Hne. destruct (Py.eq a b) eqn:Heq; [|done].
  by apply eq_hashable in Heq as [_ ?].
Qed.

Lemma existsb_false {A} (f : A -> bool) (l : list A) :
  existsb f l = false <-> forall x, x ∈ l -> f x = false.
Proof.
  induction l as [| y l IH]; simpl.
  - split; [intros _ x Hx; by apply elem_of_nil in Hx | done].
  - rewrite orb_false_iff, IH. split.
    + intros [Hy Hl] x [-> | Hx]%elem_of_cons; [done | by apply Hl].
    + intros Hall. split; [apply Hall; by left | intros x Hx; apply Hall; by right].
Qed.

(** ** The buffer of [query_pages] *)

Lemma page_dict_get_Some d k p :
  Forall (fun kv : json * json => Py.hashable (fst kv) = true) d ->
  PageDict.get d k = Some p ->
  Py.hashable k = true /\
  exists d1 k' d2,
    d = d1 ++ (k', p) :: d2
    /\ key_of k' = key_of k
    /\ (forall kv, kv ∈ d1 -> key_of (fst kv) <> key_of k)
    /\ PageDict.del d k = d1 ++ d2
    /\ forall v, PageDict.set d k v = d1 ++ (k', v) :: d2.
Proof.
  induction d as [| [k0 v0] d IH]; intros Hd Hget; [discriminate|].
  apply Forall_cons in Hd as [Hk0 Hd]. simpl in *.
  destruct (Py.eq k0 k) eqn:Heq.
  - injection Hget as ->. apply eq_hashable in Heq as [Hk Hkey]; [|done].
    split; [done|]. exists [], k0, d. repeat split; try done.
    intros kv Hin. by apply elem_of_nil in Hin.
  - destruct (IH Hd Hget) as (Hk & d1 & k' & d2 & -> & Hkey & Hd1 & Hdel & Hset).
    split; [done|]. exists ((k0, v0) :: d1), k', d2. repeat split; try done.
    + intros kv [-> | Hin]%elem_of_cons; [|by apply Hd1].
      simpl. intros Hkey0.
      assert (Py.eq k0 k = true) by (by apply eq_hashable). congruence.
    + by rewrite Hdel.
    + intros v. by rewrite Hset.
Qed.

Lemma page_dict_get_None d k :
  Forall (fun kv : json * json => Py.hashable (fst kv) = true) d ->
  Py.hashable k = true ->
  PageDict.get d k = None ->
  (forall kv, kv ∈ d -> key_of (fst kv) <> key_of k)
  /\ forall v, PageDict.set d k v = d ++ [(k, v)].
Proof.
  induction d as [| [k0 v0] d IH]; intros Hd Hk Hget.
  - split; [|done]. intros kv Hin. by apply elem_of_nil in Hin.
  - apply Forall_cons in Hd as [Hk0 Hd]. simpl in *.
    destruct (Py.eq k0 k) eqn:Heq; [discriminate|].
    destruct (IH Hd Hk Hget) as [Hall Hset]. split.
    + intros kv [-> | Hin]%elem_of_cons; [|by apply Hall].
      simpl. intros Hkey0.
      assert (Py.eq k0 k = true) by (by apply eq_hashable). congruence.
    + intros v. by rewrite Hset.
Qed.

Lemma key_of_hashable a b :
  Py.hashable a = true -> key_of a = key_of b -> Py.hashable b = true.
Proof. by destruct a, b as [| [] | | | |]. Qed.

Lemma eq_key a b :
  Py.hashable a = true -> Py.eq a b = true <-> key_of a = key_of b.
Proof.
  intros Ha. rewrite (eq_hashable a b Ha). split; [by intros [_ ?]|].
  intros Hkey. split; [by eapply key_of_hashable | done].
Qed.

Lemma dict_ok_perm ids l l' : l ≡ₚ l' -> dict_ok ids l -> dict_ok ids l'.
Proof.
  intros Hperm (Hhash & Hnodup & Hids). split; [|split].
  - by rewrite <- Hperm.
  - by rewrite <- Hperm.
  - intros kv m Hkv. apply Hids. by rewrite Hperm.
Qed.

Lemma dict_ok_cons ids k v l :
  dict_ok ids ((k, v) :: l) <->
  Py.hashable k = true
  /\ (forall kv, kv ∈ l -> key_of (fst kv) <> key_of k)
  /\ (forall m, m ∈ ids -> key_of k <> key_of m)
  /\ dict_ok ids l.
Proof.
  unfold dict_ok. rewrite Forall_cons, !fmap_cons, NoDup_cons. simpl. split.
  - intros ((Hk & Hl) & (Hnotin & Hnodup) & Hids). split; [done|]. split; [|split].
    + intros kv Hkv Hkey. apply Hnotin. rewrite <- Hkey.
      apply list_elem_of_fmap. exists (fst kv). split; [done|].
      apply list_elem_of_fmap. by exists kv.
    + intros m Hm. apply (Hids (k, v) m); [by left | done].
    + split; [done|]. split; [done|]. intros kv m Hkv. apply Hids. by right.
  - intros (Hk & Hfresh & Hkids & Hl & Hnodup & Hids). split; [done|]. split; [split|].
    + intros (k' & Hkey & (kv & -> & Hkv)%list_elem_of_fmap)%list_elem_of_fmap.
      by apply (Hfresh kv).
    + done.
    + intros kv m [-> | Hkv]%elem_of_cons; [apply Hkids | by apply Hids].
Qed.

Lemma dict_ok_value ids l1 k v v' l2 :
  dict_ok ids (l1 ++ (k, v) :: l2) -> dict_ok ids (l1 ++ (k, v') :: l2).
Proof.
  intros Hok.
  apply (dict_ok_perm _ ((k, v') :: l1 ++ l2)); [apply Permutation_middle|].
  apply (dict_ok_perm _ _ ((k, v) :: l1 ++ l2)) in Hok;
    [|symmetry; apply Permutation_middle].
  apply dict_ok_cons in Hok. by apply dict_ok_cons.
Qed.

Lemma dict_ok_modified ids l m :
  dict_ok ids l ->
  (forall kv, kv ∈ l -> key_of (fst kv) <> key_of m) ->
  dict_ok (ids ++ [m]) l.
Proof.
  intros (Hhash & Hnodup & Hids) Hm. split; [done|]. split; [done|].
  intros kv m' Hkv [Hm' | ->%list_elem_of_singleton]%elem_of_app;
    [by apply Hids | by apply Hm].
Qed.

(** The three ways in which [process_page] changes the buffer keep it a
    dict that shares no identifier with the modified set. *)
Lemma dict_ok_detect ids d1 k' p d2 new page_id :
  dict_ok ids ((d1 ++ (k', p) :: d2) ++ new) ->
  key_of k' = key_of page_id ->
  dict_ok (ids ++ [page_id]) ((d1 ++ d2) ++ new).
Proof.
  intros Hok Hkey.
  apply (dict_ok_perm _ _ ((k', p) :: (d1 ++ d2) ++ new)) in Hok;
    [|by solve_Permutation].
  apply dict_ok_cons in Hok as (_ & Hfresh & _ & Hok).
  apply dict_ok_modified; [done|]. rewrite <- Hkey. apply Hfresh.
Qed.

Lemma page_dict_set_fresh d k v :
  Forall (fun kv : json * json => Py.hashable (fst kv) = true) d ->
  (forall kv, kv ∈ d -> key_of (fst kv) <> key_of k) ->
  PageDict.set d k v = d ++ [(k, v)].
Proof.
  induction d as [| [k0 v0] d IH]; intros Hd Hfresh; [done|].
  apply Forall_cons in Hd as [Hk0 Hd]. simpl in *.
  rewrite eq_hashable_false, IH; try done.
  - intros kv Hkv. apply Hfresh. by right.
  - apply (Hfresh (k0, v0)). by left.
Qed.

Lemma dict_ok_merge ids d1 k' p d2 new page_id p' :
  dict_ok ids ((d1 ++ (k', p) :: d2) ++ new) ->
  key_of k' = key_of page_id ->
  Py.hashable page_id = true ->
  PageDict.set new page_id p' = new ++ [(page_id, p')]
  /\ dict_ok ids ((d1 ++ d2) ++ PageDict.set new page_id p').
Proof.
  intros Hok Hkey Hhash.
  apply (dict_ok_perm _ _ ((k', p) :: (d1 ++ d2) ++ new)) in Hok;
    [|by solve_Permutation].
  apply dict_ok_cons in Hok as (_ & Hfresh & Hids & Hok).
  assert (PageDict.set new page_id p' = new ++ [(page_id, p')]) as Hset.
  { apply page_dict_set_fresh.
    - destruct Hok as [Hh _]. by apply Forall_app in Hh as [_ ?].
    - intros kv Hkv. rewrite <- Hkey. apply Hfresh. apply elem_of_app. by right. }
  split; [done|]. rewrite Hset.
  apply (dict_ok_perm _ ((page_id, p') :: (d1 ++ d2) ++ new)); [by solve_Permutation|].
  apply dict_ok_cons. split; [done|]. split; [|split; [|done]].
  - intros kv Hkv. rewrite <- Hkey. by apply Hfresh.
  - intros m Hm. rewrite <- Hkey. by apply Hids.
Qed.

Lemma dict_ok_new ids inc new page_id page :
  dict_ok ids (inc ++ new) ->
  Py.hashable page_id = true ->
  (forall m, m ∈ ids -> key_of page_id <> key_of m) ->
  (forall kv, kv ∈ inc -> key_of (fst kv) <> key_of page_id) ->
  dict_ok ids (inc ++ PageDict.set new page_id page).
Proof.
  intros Hok Hhash Hids Hinc.
  assert (Forall (fun kv : json * json => Py.hashable (fst kv) = true) new) as Hnew.
  { destruct Hok as [Hh _]. by apply Forall_app in Hh as [_ ?]. }
  destruct (PageDict.get new page_id) as [old|] eqn:Hget.
  - destruct (page_dict_get_Some _ _ _ Hnew Hget)
      as (_ & n1 & k' & n2 & -> & _ & _ & _ & Hset).
    rewrite Hset. rewrite app_assoc. rewrite app_assoc in Hok.
    by eapply dict_ok_value.
  - destruct (page_dict_get_None _ _ Hnew Hhash Hget) as [Hfresh Hset].
    rewrite Hset.
    apply (dict_ok_perm _ ((page_id, page) :: inc ++ new)); [by solve_Permutation|].
    apply dict_ok_cons. split; [done|]. split; [|by split].
    intros kv [Hkv | Hkv]%elem_of_app; [by apply Hinc | by apply Hfresh].
Qed.

Lemma bind_raise {A B} e (f : A -> M B) : raise e ≫= f = raise e.
Proof. reflexivity. Qed.

Lemma dict_get_Some_elem_of {A} (d : list (string * A)) k v :
  Py.dict_get d k = Some v -> (k, v) ∈ d.
Proof.
  induction d as [| [k0 v0] d IH]; simpl; [discriminate|].
  destruct (String.eqb_spec k0 k) as [-> | Hne].
  - intros [= ->]. by left.
  - intros Hget. right. by apply IH.
Qed.

Lemma merged_value_hashable old new :
  Py.hashable new = true -> merged_value old new = Ok new.
Proof. by destruct old, new. Qed.

(** Merging a fragment leaves the entity with the [pageid] of the
    fragment. *)
Lemma merge_page_pageid p page p' page_id :
  distinct_members page ->
  Py.getitem page "pageid" = Ok page_id ->
  Py.hashable page_id = true ->
  merge_page p page = Ok p' ->
  Py.getitem p' "pageid" = Ok page_id.
Proof.
  intros Hdistinct Hid Hhash Hmerge.
  destruct page as [| | | | | items]; try discriminate. simpl in Hid, Hdistinct.
  destruct (Py.dict_get items "pageid") as [id|] eqn:Hget; [|discriminate].
  injection Hid as ->.
  assert ((exists dp, p = JObj dp) \/ forall dp, p <> JObj dp) as [[dp ->] | Hp]
    by (destruct p; eauto).
  - rewrite merge_page_object in Hmerge.
    destruct (merge_members items dp) as [r|] eqn:Hr; [|discriminate].
    injection Hmerge as <-.
    destruct (merge_members_lookup _ Hdistinct _ _ Hr "pageid") as [Hin _].
    destruct (Hin page_id) as (x & Hx & Hrx); [by apply dict_get_Some_elem_of|].
    rewrite merged_value_hashable in Hx by done. injection Hx as <-.
    simpl. by rewrite Hrx.
  - destruct items as [| [k val] items]; [discriminate|].
    by rewrite merge_page_not_object in Hmerge.
Qed.

Lemma set_mem_false ids x :
  Py.set_mem ids x = Ok false ->
  Py.hashable x = true /\ forall m, m ∈ ids -> key_of x <> key_of m.
Proof.
  unfold Py.set_mem. destruct (Py.hashable x) eqn:Hx; [|discriminate].
  intros [= Hex]. split; [done|]. intros m Hm Hkey.
  rewrite existsb_false in Hex. specialize (Hex m Hm).
  apply (eq_key x m Hx) in Hkey. congruence.
Qed.

(** What [process_page] emits: nothing, or the page when it is reported
    missing. *)
Lemma process_page_events b page evs out :
  process_page b page = (evs, out) ->
  evs = [] \/ (evs = [Yield page] /\ Py.contains page "missing" = Ok true).
Proof.
  unfold process_page.
  destruct (Py.contains page "missing") as [[] | e]; cbn [lift];
    rewrite ?bind_ret, ?bind_raise.
  - destruct (Py.getitem page "title") as [title | e]; cbn [lift];
      rewrite ?bind_ret, ?bind_raise; [|intros [= <- _]; by left].
    destruct (Py.set_mem (missing b) title) as [[] | e]; cbn [lift];
      rewrite ?bind_ret, ?bind_raise; intros [= <- _]; auto.
  - destruct (Py.getitem page "pageid") as [page_id | e]; cbn [lift];
      rewrite ?bind_ret, ?bind_raise; [|intros [= <- _]; by left].
    destruct (Py.set_mem (modified b) page_id) as [[] | e]; cbn [lift];
      rewrite ?bind_ret, ?bind_raise; try (intros [= <- _]; by left).
    destruct (PageDict.get (incomplete b) page_id) as [p|];
      [|intros [= <- _]; by left].
    destruct (Py.contains page "lastrevid") as [[] | e]; cbn [lift];
      rewrite ?bind_ret, ?bind_raise; try (intros [= <- _]; by left).
    + destruct (Py.getitem p "lastrevid") as [old | e]; cbn [lift];
        rewrite ?bind_ret, ?bind_raise; try (intros [= <- _]; by left).
      destruct (Py.getitem page "lastrevid") as [new | e]; cbn [lift];
        rewrite ?bind_ret, ?bind_raise; try (intros [= <- _]; by left).
      destruct (negb (Py.eq old new)); try (intros [= <- _]; by left).
      destruct (merge_page p page); cbn [lift];
        rewrite ?bind_ret, ?bind_raise; intros [= <- _]; by left.
    + destruct (merge_page p page); cbn [lift];
        rewrite ?bind_ret, ?bind_raise; intros [= <- _]; by left.
  - intros [= <- _]. by left.
Qed.

Lemma entities_ok_perm l l' : l ≡ₚ l' -> entities_ok l -> entities_ok l'.
Proof. unfold entities_ok. by intros ->. Qed.

(** [process_page] keeps the buffer a dict apart from the modified set,
    never takes an identifier out of the modified set, and keeps every
    buffered entity under its own [pageid]. *)
Lemma process_page_inv b page evs b' :
  buckets_inv b ->
  process_page b page = (evs, Done b') ->
  buckets_inv b'
  /\ (forall m, m ∈ modified b -> m ∈ modified b')
  /\ (entities_inv b -> distinct_members page -> entities_inv b').
Proof.
  intros Hinv. unfold process_page.
  destruct (Py.contains page "missing") as [[] | e]; cbn [lift];
    rewrite ?bind_ret, ?bind_raise; [| |discriminate].
  - destruct (Py.getitem page "title") as [title | e]; cbn [lift];
      rewrite ?bind_ret, ?bind_raise; [|discriminate].
    destruct (Py.set_mem (missing b) title) as [[] | e]; cbn [lift];
      rewrite ?bind_ret, ?bind_raise; [| |discriminate]; by intros [= _ <-].
  - destruct (Py.getitem page "pageid") as [page_id | e] eqn:Hid; cbn [lift];
      rewrite ?bind_ret, ?bind_raise; [|discriminate].
    destruct (Py.set_mem (modified b) page_id) as [[] | e] eqn:Hmod; cbn [lift];
      rewrite ?bind_ret, ?bind_raise; [by intros [= _ <-] | | discriminate].
    apply set_mem_false in Hmod as [Hhash Hfresh].
    pose proof Hinv as (Hkeys & _ & _). unfold buffered in Hkeys.
    apply Forall_app in Hkeys as [Hinc Hnew].
    destruct (PageDict.get (incomplete b) page_id) as [p|] eqn:Hget.
    + destruct (page_dict_get_Some _ _ _ Hinc Hget)
        as (_ & d1 & k' & d2 & Hd & Hkey & _ & Hdel & _).
      rewrite Hdel. unfold buckets_inv, entities_inv, buffered in *.
      rewrite Hd in Hinv.
      assert (forall changed : bool,
                 (if changed then
                    ret {| incomplete := d1 ++ d2; new_incomplete := new_incomplete b;
                           modified := modified b ++ [page_id]; missing := missing b |}
                  else
                    p0 ← lift (merge_page p page);
                    ret {| incomplete := d1 ++ d2;
                           new_incomplete := PageDict.set (new_incomplete b) page_id p0;
                           modified := modified b; missing := missing b |})
                 = (evs, Done b') ->
                 dict_ok (modified b') (incomplete b' ++ new_incomplete b')
                 /\ (forall m, m ∈ modified b -> m ∈ modified b')
                 /\ (entities_ok (incomplete b ++ new_incomplete b) ->
                     distinct_members page ->
                     entities_ok (incomplete b' ++ new_incomplete b'))) as Hcases.
      { intros [].
        - intros [= _ <-]. simpl. split; [by eapply dict_ok_detect|].
          split; [intros m Hm; apply elem_of_app; by left|].
          intros Hent _. rewrite Hd in Hent.
          apply (entities_ok_perm _ ((k', p) :: (d1 ++ d2) ++ new_incomplete b)) in Hent;
            [|by solve_Permutation].
          by apply Forall_cons in Hent as [_ ?].
        - destruct (merge_page p page) as [p'|] eqn:Hmerge; cbn [lift];
            rewrite ?bind_ret, ?bind_raise; [|discriminate].
          intros [= _ <-]. simpl.
          destruct (dict_ok_merge _ _ _ _ _ _ _ p' Hinv Hkey Hhash) as [Hset Hok].
          split; [done|]. split; [done|].
          intros Hent Hdistinct. rewrite Hd in Hent. rewrite Hset.
          apply (entities_ok_perm _ ((k', p) :: (d1 ++ d2) ++ new_incomplete b)) in Hent;
            [|by solve_Permutation].
          apply Forall_cons in Hent as [_ Hent].
          apply (entities_ok_perm ((page_id, p') :: (d1 ++ d2) ++ new_incomplete b));
            [by solve_Permutation|].
          apply Forall_cons. split; [|done]. exists page_id. split; [|done].
          by eapply merge_page_pageid. }
      destruct (Py.contains page "lastrevid") as [[] | e]; cbn [lift];
        rewrite ?bind_ret, ?bind_raise; [| by apply (Hcases false) | discriminate].
      destruct (Py.getitem p "lastrevid") as [old | e]; cbn [lift];
        rewrite ?bind_ret, ?bind_raise; [|discriminate].
      destruct (Py.getitem page "lastrevid") as [new | e]; cbn [lift];
        rewrite ?bind_ret, ?bind_raise; [|discriminate].
      apply Hcases.
    + destruct (page_dict_get_None _ _ Hinc Hhash Hget) as [Hfreshinc _].
      intros [= _ <-]. unfold buckets_inv, entities_inv, buffered in *. simpl.
      split; [by apply dict_ok_new|]. split; [done|].
      intros Hent _. apply Forall_app in Hent as [Hentinc Hentnew].
      apply Forall_app. split; [done|].
      destruct (PageDict.get (new_incomplete b) page_id) as [old|] eqn:Hgetnew.
      * destruct (page_dict_get_Some _ _ _ Hnew Hgetnew)
          as (_ & n1 & k' & n2 & Hn & Hkey & _ & _ & Hset).
        rewrite Hset. rewrite Hn in Hentnew.
        apply Forall_app in Hentnew as [Hn1 [_ Hn2]%Forall_cons].
        apply Forall_app. split; [done|]. apply Forall_cons. split; [|done].
        exists page_id. by split.
      * destruct (page_dict_get_None _ _ Hnew Hhash Hgetnew) as [_ Hset].
        rewrite Hset. apply Forall_app. split; [done|].
        apply Forall_cons. split; [|done]. exists page_id. by split.
Qed.

Lemma dict_ok_next ids inc new : dict_ok ids (inc ++ new) -> dict_ok ids (new ++ []).
Proof.
  rewrite app_nil_r. induction inc as [| [k v] inc IH]; [done|].
  intros Hok. apply IH. simpl in Hok.
  by apply dict_ok_cons in Hok as (_ & _ & _ & Hok).
Qed.

Lemma reachable_inv b : reachable b -> buckets_inv b.
Proof.
  induction 1 as [| b page evs b' _ IH Hpage | b _ IH].
  - split; [done|]. split; [by apply NoDup_nil|].
    intros kv m Hkv. by apply elem_of_nil in Hkv.
  - by destruct (process_page_inv _ _ _ _ IH Hpage).
  - unfold buckets_inv, buffered in *. simpl. by eapply dict_ok_next.
Qed.

(** An identifier that is buffered is not in the modified set. *)
Lemma buffered_not_modified b page_id p :
  buckets_inv b ->
  PageDict.get (incomplete b) page_id = Some p ->
  Py.set_mem (modified b) page_id = Ok false.
Proof.
  intros (Hkeys & _ & Hids) Hget. unfold buffered in *.
  pose proof Hkeys as [Hinc _]%Forall_app.
  destruct (page_dict_get_Some _ _ _ Hinc Hget)
    as (Hhash & d1 & k' & d2 & Hd & Hkey & _).
  unfold Py.set_mem. rewrite Hhash. f_equal. apply existsb_false.
  intros m Hm. apply eq_hashable_false; [done|]. rewrite <- Hkey.
  apply (Hids (k', p)); [|done]. rewrite Hd. apply elem_of_app. left.
  apply elem_of_app. right. by left.
Qed.

(** C10, as amended. In every state that [query_pages] can reach, a
    fragment that is not reported missing, whose identifier is still
    buffered from the result before and which has no [lastrevid], goes
    through no comparison of revisions: it is merged into the buffered
    entity, which moves to the bucket of the current result (or the
    failure of the merge is raised), and the modified set stays as it
    is. *)
Theorem fragment_without_revision_is_merged :
  forall b page page_id p,
    reachable b ->
    Py.contains page "missing" = Ok false ->
    Py.getitem page "pageid" = Ok page_id ->
    PageDict.get (incomplete b) page_id = Some p ->
    Py.contains page "lastrevid" = Ok false ->
    process_page b page
    = match merge_page p page with
      | Ok merged =>
          ([], Done {| incomplete := PageDict.del (incomplete b) page_id;
                       new_incomplete := PageDict.set (new_incomplete b) page_id merged;
                       modified := modified b;
                       missing := missing b |})
      | Err e => ([], Raised e)
      end.
Proof.
  intros b page page_id p Hreach Hmissing Hid Hget Hrev.
  unfold process_page. rewrite Hmissing. cbn [lift]. rewrite bind_ret.
  rewrite Hid. cbn [lift]. rewrite bind_ret.
  rewrite (buffered_not_modified _ _ _ (reachable_inv _ Hreach) Hget).
  cbn [lift]. rewrite bind_ret. rewrite Hget, Hrev. cbn [lift].
  rewrite !bind_ret. by destruct (merge_page p page).
Qed.

(** C10 as stated fails for an entity that the current result has
    already met: it is buffered, in the bucket of the current result,
    and a further fragment with its identifier and no [lastrevid] is
    not merged into it but takes its place.  The title of the page and
    the member [b] are lost. *)
Lemma second_fragment_of_a_result_replaces_the_entity :
  query_pages_outcome
    (query_pages (fun ids => ids) default_site ∅
       [Responds (query_reply (Some (JObj gap_continue))
                    (pages_result [page_a 5 []]));
        Responds (query_reply None
                    (pages_result [JObj [("pageid", JInt 1); ("b", JInt 2)];
                                   JObj [("pageid", JInt 1); ("c", JInt 3)]]))])
  = ([JObj [("pageid", JInt 1); ("c", JInt 3)]], Done tt).
Proof. vm_compute. reflexivity. Qed.

(** ** The pages of one result *)

Lemma process_pages_app b pages pages' :
  process_pages b (pages ++ pages')
  = b' ← process_pages b pages; process_pages b' pages'.
Proof.
  revert b. induction pages as [| page pages IH]; intros b; simpl.
  - by destruct (process_pages b pages').
  - rewrite bind_assoc. apply bind_ext. intros b'. apply IH.
Qed.

Lemma getitem_contains v k x : Py.getitem v k = Ok x -> Py.contains v k = Ok true.
Proof.
  destruct v; try discriminate. simpl. unfold Py.dict_mem.
  by destruct (Py.dict_get members k).
Qed.

(** A fragment whose revision differs from the one of the buffered
    entity puts the identifier in the modified set and drops the
    entity. *)
Lemma process_page_detects b page page_id p old new :
  buckets_inv b ->
  Py.contains page "missing" = Ok false ->
  Py.getitem page "pageid" = Ok page_id ->
  PageDict.get (incomplete b) page_id = Some p ->
  Py.getitem p "lastrevid" = Ok old ->
  Py.getitem page "lastrevid" = Ok new ->
  Py.eq old new = false ->
  process_page b page
  = ([], Done {| incomplete := PageDict.del (incomplete b) page_id;
                 new_incomplete := new_incomplete b;
                 modified := modified b ++ [page_id];
                 missing := missing b |}).
Proof.
  intros Hinv Hmissing Hid Hget Hold Hnew Hne.
  unfold process_page. rewrite Hmissing. cbn [lift]. rewrite bind_ret.
  rewrite Hid. cbn [lift]. rewrite bind_ret.
  rewrite (buffered_not_modified _ _ _ Hinv Hget). cbn [lift]. rewrite bind_ret.
  rewrite Hget, (getitem_contains _ _ _ Hnew). cbn [lift]. rewrite bind_ret.
  rewrite Hold, Hnew. cbn [lift]. rewrite !bind_ret, Hne. reflexivity.
Qed.

Lemma process_pages_inv pages :
  forall b evs out,
    buckets_inv b -> entities_inv b ->
    Forall distinct_members pages ->
    process_pages b pages = (evs, out) ->
    Forall (fun y => Py.contains y "missing" = Ok true) (yields evs)
    /\ forall b', out = Done b' ->
                  buckets_inv b' /\ entities_inv b'
                  /\ forall m, m ∈ modified b -> m ∈ modified b'.
Proof.
  induction pages as [| page pages IH]; intros b evs out Hinv Hent Hpages.
  - intros [= <- <-]. split; [done|]. by intros b' [= <-].
  - apply Forall_cons in Hpages as [Hpage Hpages]. cbn [process_pages].
    destruct (process_page b page) as [evs0 out0] eqn:Hstep.
    assert (Forall (fun y => Py.contains y "missing" = Ok true) (yields evs0)) as Hevs0.
    { destruct (process_page_events _ _ _ _ Hstep) as [-> | [-> Hmissing]];
        [done | by apply Forall_cons]. }
    destruct out0 as [b0 | e | ].
    + rewrite bind_done.
      destruct (process_page_inv _ _ _ _ Hinv Hstep) as (Hinv0 & Hmod0 & Hent0).
      destruct (process_pages b0 pages) as [evs1 out1] eqn:Hrest.
      destruct (IH _ _ _ Hinv0 (Hent0 Hent Hpage) Hpages Hrest) as [Hevs1 Hout1].
      simpl. intros [= <- <-]. rewrite yields_app. split; [by apply Forall_app|].
      intros b' Hb'. destruct (Hout1 b' Hb') as (? & ? & Hmod1).
      split; [done|]. split; [done|]. intros m Hm. by apply Hmod1, Hmod0.
    + rewrite bind_raised. intros [= <- <-]. split; [done | discriminate].
    + rewrite bind_pending. intros [= <- <-]. split; [done | discriminate].
Qed.

(** No buffered entity has a modified identifier. *)
Lemma buffered_not_entity b m :
  buckets_inv b -> entities_inv b -> m ∈ modified b ->
  Forall (not_entity m) (snd <$> buffered b).
Proof.
  intros (Hkeys & _ & Hids) Hent Hm. apply Forall_fmap.
  unfold entities_inv, entities_ok in Hent.
  apply Forall_forall. intros [k p] Hkp.
  rewrite Forall_forall in Hkeys, Hent.
  destruct (Hent _ Hkp) as (id & Hid & Hkey). simpl in *.
  right. exists id. split; [done|].
  apply eq_hashable_false.
  - eapply key_of_hashable; [apply (Hkeys _ Hkp) | done].
  - rewrite Hkey. by apply (Hids (k, p)).
Qed.

Lemma yields_flush d : yields (fst (flush d)) = snd <$> d.
Proof. unfold flush. simpl. induction d as [| kv d IH]; [done | simpl; by f_equal]. Qed.

Lemma process_result_pages st result pages :
  Py.getitem result "pages" ≫= Py.iter = Ok pages ->
  process_result st result = finish_result (start st) pages.
Proof.
  intros Hpages. unfold process_result, finish_result.
  destruct (Py.getitem result "pages") as [v|] eqn:Hget; [|discriminate].
  rewrite (getitem_contains _ _ _ Hget). cbn [lift]. rewrite bind_ret.
  change (Py.iter v = Ok pages) in Hpages.
  cbn [negb]. rewrite bind_ret, Hpages. cbn [lift]. by rewrite !bind_ret.
Qed.

Lemma finish_result_inv b pages evs out :
  buckets_inv b -> entities_inv b ->
  Forall distinct_members pages ->
  finish_result b pages = (evs, out) ->
  (forall m, m ∈ modified b -> Forall (not_entity m) (yields evs))
  /\ forall st', out = Done st' ->
                 state_inv st' /\ forall m, m ∈ modified b -> m ∈ modified_ids st'.
Proof.
  intros Hinv Hent Hpages. unfold finish_result.
  destruct (process_pages b pages) as [evs0 out0] eqn:Hrun.
  destruct (process_pages_inv _ _ _ _ Hinv Hent Hpages Hrun) as [Hevs0 Hout0].
  assert (forall m, Forall (not_entity m) (yields evs0)) as Hmissing.
  { intros m. eapply Forall_impl; [apply Hevs0|]. intros y Hy. by left. }
  destruct out0 as [b0 | e | ].
  - destruct (Hout0 b0 eq_refl) as (Hinv0 & Hent0 & Hmod0).
    rewrite bind_done. unfold flush. rewrite bind_done. simpl.
    intros [= <- <-]. split.
    + intros m Hm. rewrite app_nil_r, yields_app. apply Forall_app. split; [done|].
      pose proof (buffered_not_entity _ _ Hinv0 Hent0 (Hmod0 m Hm)) as Hbuf.
      unfold buffered in Hbuf. rewrite fmap_app in Hbuf.
      apply Forall_app in Hbuf as [Hbuf _].
      by rewrite <- yields_flush in Hbuf.
    + intros st' [= <-]. split; [|by apply Hmod0].
      unfold state_inv, buckets_inv, entities_inv, entities_ok, buffered in *.
      simpl. split; [by eapply dict_ok_next|].
      rewrite app_nil_r. by apply Forall_app in Hent0 as [_ ?].
  - rewrite bind_raised. intros [= <- <-]. split; [done | discriminate].
  - rewrite bind_pending. intros [= <- <-]. split; [done | discriminate].
Qed.

Lemma process_result_inv st result evs out :
  state_inv st ->
  Forall distinct_members (pages_of result) ->
  process_result st result = (evs, out) ->
  (forall m, m ∈ modified_ids st -> Forall (not_entity m) (yields evs))
  /\ forall st', out = Done st' ->
                 state_inv st' /\ forall m, m ∈ modified_ids st -> m ∈ modified_ids st'.
Proof.
  intros [Hinv Hent] Hwf Hrun.
  destruct (Py.getitem result "pages" ≫= Py.iter) as [pages|] eqn:Hpages.
  - rewrite (process_result_pages _ _ _ Hpages) in Hrun.
    unfold pages_of in Hwf. rewrite Hpages in Hwf.
    by apply (finish_result_inv _ _ _ _ Hinv Hent Hwf Hrun).
  - rename e into err.
    assert (evs = [] /\ forall st', out <> Done st') as [-> Hout].
    { unfold process_result in Hrun.
      destruct (Py.contains result "pages") as [[] | e]; cbn [lift] in Hrun;
        rewrite ?bind_ret, ?bind_raise in Hrun; cbn [negb] in Hrun;
        try (by injection Hrun as <- <-).
      destruct (Py.getitem result "pages") as [v|]; cbn [lift] in Hrun;
        rewrite ?bind_ret, ?bind_raise in Hrun; [|by injection Hrun as <- <-].
      change (Py.iter v = Err err) in Hpages. rewrite Hpages in Hrun.
      by injection Hrun as <- <-. }
    split; [done|]. intros st' Hst'. by destruct (Hout st').
Qed.

Lemma drive_app st evs evs' :
  drive st (evs ++ evs') = st' ← drive st evs; drive st' evs'.
Proof.
  revert st. induction evs as [| ev evs IH]; intros st.
  - simpl. by destruct (drive st evs').
  - destruct ev; cbn [app drive]; rewrite bind_assoc; apply bind_ext; intros ?;
      apply IH.
Qed.

Lemma drive_inv evs :
  forall st out_evs out,
    state_inv st ->
    Forall (fun r => Forall distinct_members (pages_of r)) (yields evs) ->
    drive st evs = (out_evs, out) ->
    (forall m, m ∈ modified_ids st -> Forall (not_entity m) (yields out_evs))
    /\ forall st', out = Done st' ->
                   state_inv st' /\ forall m, m ∈ modified_ids st -> m ∈ modified_ids st'.
Proof.
  induction evs as [| ev evs IH]; intros st out_evs out Hinv Hwf.
  - intros [= <- <-]. split; [done|]. by intros st' [= <-].
  - destruct ev as [why d | method kw | lvl text | result].
    1-3: cbn [drive]; unfold emit; rewrite bind_done;
         destruct (drive st evs) as [evs1 out1] eqn:Hrest; simpl;
         intros [= <- <-];
         by destruct (IH _ _ _ Hinv Hwf Hrest) as [Hevs1 Hout1].
    cbn [drive]. simpl in Hwf. apply Forall_cons in Hwf as [Hresult Hwf].
    destruct (process_result st result) as [evs0 out0] eqn:Hstep.
    destruct (process_result_inv _ _ _ _ Hinv Hresult Hstep) as [Hevs0 Hout0].
    destruct out0 as [st0 | e | ].
    + destruct (Hout0 st0 eq_refl) as [Hinv0 Hmod0]. rewrite bind_done.
      destruct (drive st0 evs) as [evs1 out1] eqn:Hrest. simpl.
      intros [= <- <-].
      destruct (IH _ _ _ Hinv0 Hwf Hrest) as [Hevs1 Hout1]. split.
      * intros m Hm. rewrite yields_app. apply Forall_app.
        split; [by apply Hevs0 | by apply Hevs1, Hmod0].
      * intros st' Hst'. destruct (Hout1 st' Hst') as [? Hmod1].
        split; [done|]. intros m Hm. by apply Hmod1, Hmod0.
    + rewrite bind_raised. intros [= <- <-]. split; [done | discriminate].
    + rewrite bind_pending. intros [= <- <-]. split; [done | discriminate].
Qed.

Lemma state_inv_initial : state_inv initial.
Proof.
  split; [|by apply Forall_nil].
  split; [done|]. split; [by apply NoDup_nil|].
  intros kv m Hkv. by apply elem_of_nil in Hkv.
Qed.

Lemma finish_modified list_of st m :
  m ∈ modified_ids st ->
  finish list_of st
  = (map (fun kv => Yield (snd kv)) (pending_pages st),
     Raised (ApiPagesModifiedError (list_of (modified_ids st)))).
Proof.
  intros Hm. unfold finish, flush. rewrite bind_done.
  destruct (modified_ids st) as [| m0 ids]; [by apply elem_of_nil in Hm|].
  simpl. by rewrite app_nil_r.
Qed.

(** What the code does detect. When a result delivers, for an entity
    that is still buffered from the result before, a fragment that is
    not reported missing and whose revision marker differs from the
    marker of the buffered entity, then from that point on no entity
    with that identifier is yielded; the stream does not end normally;
    and when every result is processed without another failure, the
    remaining entities are yielded first and the stream then fails with
    the entities-modified condition, which carries the identifiers
    detected in this way, in the order in which the runtime lists the
    set, this one among them. *)
Lemma modified_entity_is_reported_at_the_end :
  forall list_of evs1 o1 st result pages1 page pages2 o2 b p page_id old new evs2,
    lists_the_set list_of ->
    Forall (fun r => Forall distinct_members (pages_of r))
      (yields (evs1 ++ Yield result :: evs2)) ->
    drive initial evs1 = (o1, Done st) ->
    Py.getitem result "pages" ≫= Py.iter = Ok (pages1 ++ page :: pages2) ->
    process_pages (start st) pages1 = (o2, Done b) ->
    Py.contains page "missing" = Ok false ->
    Py.getitem page "pageid" = Ok page_id ->
    PageDict.get (incomplete b) page_id = Some p ->
    Py.getitem p "lastrevid" = Ok old ->
    Py.getitem page "lastrevid" = Ok new ->
    Py.eq old new = false ->
    exists later out,
      reconcile list_of initial (evs1 ++ Yield result :: evs2) (Done tt)
      = (o1 ++ o2 ++ later, out)
      /\ Forall (not_entity page_id) (yields later)
      /\ out <> Done tt
      /\ forall o st',
           drive initial (evs1 ++ Yield result :: evs2) = (o, Done st') ->
           out = Raised (ApiPagesModifiedError (list_of (modified_ids st')))
           /\ page_id ∈ list_of (modified_ids st')
           /\ o1 ++ o2 ++ later
              = o ++ map (fun kv => Yield (snd kv)) (pending_pages st').
Proof.
  intros list_of evs1 o1 st result pages1 page pages2 o2 b p page_id old new evs2
    Hlist Hwf Hdrive1 Hpages Hpages1 Hmissing Hid Hget Hold Hnew Hne.
  rewrite yields_app in Hwf. apply Forall_app in Hwf as [Hwf1 Hwf2].
  simpl in Hwf2. apply Forall_cons in Hwf2 as [Hwfr Hwf2].
  unfold pages_of in Hwfr. rewrite Hpages in Hwfr.
  apply Forall_app in Hwfr as [Hwfp1 [Hwfp Hwfp2]%Forall_cons].
  destruct (drive_inv _ _ _ _ state_inv_initial Hwf1 Hdrive1) as [_ Hst].
  destruct (Hst st eq_refl) as [[Hinv Hent] _].
  destruct (process_pages_inv _ _ _ _ Hinv Hent Hwfp1 Hpages1) as [_ Hb].
  destruct (Hb b eq_refl) as (Hinvb & Hentb & _).
  pose proof (process_page_detects _ _ _ _ _ _ Hinvb Hmissing Hid Hget Hold Hnew Hne)
    as Hdetect.
  set (bd := {| incomplete := PageDict.del (incomplete b) page_id;
                new_incomplete := new_incomplete b;
                modified := modified b ++ [page_id];
                missing := missing b |}) in *.
  destruct (process_page_inv _ _ _ _ Hinvb Hdetect) as (Hinvd & _ & Hentd).
  specialize (Hentd Hentb Hwfp).
  assert (page_id ∈ modified bd) as Hmod.
  { simpl. apply elem_of_app. right. by left. }
  assert (drive initial (evs1 ++ Yield result :: evs2)
          = ((o1 ++ o2, Done tt) : M unit)
              ≫= (fun _ => st1 ← finish_result bd pages2; drive st1 evs2)) as Hsplit.
  { rewrite drive_app, Hdrive1, bind_done. cbn [drive].
    rewrite (process_result_pages _ _ _ Hpages). unfold finish_result.
    rewrite process_pages_app, Hpages1, !bind_assoc, !bind_done.
    cbn [process_pages]. rewrite Hdetect, !bind_assoc, (bind_ret bd).
    cbn [fst snd]. by rewrite app_assoc. }
  destruct (finish_result bd pages2) as [evs3 out3] eqn:Hfinish.
  destruct (finish_result_inv _ _ _ _ Hinvd Hentd Hwfp2 Hfinish) as [Hevs3 Hout3].
  specialize (Hevs3 page_id Hmod).
  unfold reconcile. rewrite Hsplit.
  destruct out3 as [st1 | e | ].
  - destruct (Hout3 st1 eq_refl) as [Hinv1 Hmod1]. specialize (Hmod1 page_id Hmod).
    rewrite (bind_done evs3).
    destruct (drive st1 evs2) as [evs4 out4] eqn:Hdrive2. cbn [fst snd].
    destruct (drive_inv _ _ _ _ Hinv1 Hwf2 Hdrive2) as [Hevs4 Hout4].
    specialize (Hevs4 page_id Hmod1).
    destruct out4 as [st2 | e | ].
    + destruct (Hout4 st2 eq_refl) as [[Hinv2 Hent2] Hmod2].
      specialize (Hmod2 page_id Hmod1).
      rewrite !bind_done. cbn [fst snd]. rewrite bind_done.
      rewrite (finish_modified list_of _ _ Hmod2). cbn [fst snd].
      exists ((evs3 ++ evs4) ++ map (fun kv => Yield (snd kv)) (pending_pages st2)),
             (Raised (ApiPagesModifiedError (list_of (modified_ids st2)))).
      split; [by rewrite <- !app_assoc|]. split; [|split; [done|]].
      * rewrite !yields_app. apply Forall_app. split; [by apply Forall_app|].
        pose proof (buffered_not_entity _ _ Hinv2 Hent2 Hmod2) as Hbuf.
        unfold buffered in Hbuf. simpl in Hbuf. rewrite app_nil_r in Hbuf.
        by rewrite <- yields_flush in Hbuf.
      * intros o st' [= <- <-]. split; [done|]. split; [by rewrite (Hlist _)|].
        by rewrite <- !app_assoc.
    + rewrite !bind_done. cbn [fst snd]. rewrite bind_raised.
      exists (evs3 ++ evs4), (Raised e).
      split; [by rewrite <- !app_assoc|]. split; [|split; [done|]].
      * rewrite yields_app. by apply Forall_app.
      * intros o st'. discriminate.
    + rewrite !bind_done. cbn [fst snd]. rewrite bind_pending.
      exists (evs3 ++ evs4), Pending.
      split; [by rewrite <- !app_assoc|]. split; [|split; [done|]].
      * rewrite yields_app. by apply Forall_app.
      * intros o st'. discriminate.
  - rewrite bind_raised, bind_done. cbn [fst snd]. rewrite bind_raised.
    exists evs3, (Raised e).
    split; [by rewrite <- !app_assoc|]. split; [done|]. split; [done|].
    intros o st'. discriminate.
  - rewrite bind_pending, bind_done. cbn [fst snd]. rewrite bind_pending.
    exists evs3, Pending.
    split; [by rewrite <- !app_assoc|]. split; [done|]. split; [done|].
    intros o st'. discriminate.
Qed.

(** ** The merge of two fragments *)

Lemma process_page_new b page page_id :
  Py.contains page "missing" = Ok false ->
  Py.getitem page "pageid" = Ok page_id ->
  Py.set_mem (modified b) page_id = Ok false ->
  PageDict.get (incomplete b) page_id = None ->
  process_page b page
  = ([], Done {| incomplete := incomplete b;
                 new_incomplete := PageDict.set (new_incomplete b) page_id page;
                 modified := modified b; missing := missing b |}).
Proof.
  intros Hmissing Hid Hmod Hget. unfold process_page.
  rewrite Hmissing. cbn [lift]. rewrite bind_ret.
  rewrite Hid. cbn [lift]. rewrite bind_ret.
  rewrite Hmod. cbn [lift]. rewrite bind_ret. by rewrite Hget.
Qed.

Lemma process_page_same_revision b page page_id p old new merged :
  Py.contains page "missing" = Ok false ->
  Py.getitem page "pageid" = Ok page_id ->
  Py.set_mem (modified b) page_id = Ok false ->
  PageDict.get (incomplete b) page_id = Some p ->
  Py.getitem p "lastrevid" = Ok old ->
  Py.getitem page "lastrevid" = Ok new ->
  Py.eq old new = true ->
  merge_page p page = Ok merged ->
  process_page b page
  = ([], Done {| incomplete := PageDict.del (incomplete b) page_id;
                 new_incomplete := PageDict.set (new_incomplete b) page_id merged;
                 modified := modified b; missing := missing b |}).
Proof.
  intros Hmissing Hid Hmod Hget Hold Hnew Heq Hmerge. unfold process_page.
  rewrite Hmissing. cbn [lift]. rewrite bind_ret.
  rewrite Hid. cbn [lift]. rewrite bind_ret.
  rewrite Hmod. cbn [lift]. rewrite bind_ret.
  rewrite Hget, (getitem_contains _ _ _ Hnew). cbn [lift]. rewrite bind_ret.
  rewrite Hold, Hnew. cbn [lift]. rewrite !bind_ret, Heq. cbn [negb].
  rewrite Hmerge. cbn [lift]. by rewrite bind_ret.
Qed.

Lemma eq_refl_hashable v : Py.hashable v = true -> Py.eq v v = true.
Proof. intros Hv. by apply eq_key. Qed.

Lemma fragment_members id rev k v :
  k ∉ reserved ->
  Py.contains (fragment id rev [(k, v)]) "missing" = Ok false
  /\ Py.getitem (fragment id rev [(k, v)]) "pageid" = Ok id
  /\ Py.getitem (fragment id rev [(k, v)]) "lastrevid" = Ok rev.
Proof.
  unfold reserved. intros Hk.
  assert (String.eqb k "missing" = false) as Hm.
  { apply String.eqb_neq. intros ->. apply Hk. by left. }
  unfold fragment. simpl. unfold Py.dict_mem. simpl. by rewrite Hm.
Qed.

Lemma merge_fragments id rev a x b y :
  Py.hashable id = true -> Py.hashable rev = true ->
  a <> b -> a ∉ reserved -> b ∉ reserved ->
  merge_page (fragment id rev [(a, x)]) (fragment id rev [(b, y)])
  = Ok (JObj [("pageid", id); ("lastrevid", rev); (a, x); (b, y)]).
Proof.
  unfold reserved. intros Hid Hrev Hab Ha Hb.
  assert (String.eqb "pageid" b = false /\ String.eqb "lastrevid" b = false
          /\ String.eqb a b = false) as (Hb1 & Hb2 & Hb3).
  { repeat split; apply String.eqb_neq; try done;
      intros <-; apply Hb; set_solver. }
  assert (String.eqb "pageid" "lastrevid" = false) as Hpl by reflexivity.
  unfold fragment. rewrite merge_page_object.
  cbn -[String.eqb merged_value].
  rewrite String.eqb_refl, (merged_value_hashable _ _ Hid).
  cbn -[String.eqb merged_value].
  rewrite !String.eqb_refl, !Hpl, (merged_value_hashable _ _ Hrev).
  cbn -[String.eqb merged_value].
  by rewrite !Hb1, !Hb2, !Hb3.
Qed.

Lemma process_result_one_page st page :
  process_result st (pages_result [page])
  = b ← process_page (start st) page; flush (incomplete b);; ret (close b).
Proof.
  rewrite (process_result_pages _ _ [page]) by reflexivity.
  unfold finish_result. cbn [process_pages]. rewrite bind_assoc.
  apply bind_ext. intros b. by rewrite bind_ret.
Qed.

(** The scenario of the merge: two fragments of one page at the same
    revision, delivered by two results in a row, one with the member [a]
    and the other with the member [b], make one entity with both. *)
Lemma two_fragments_make_one_entity list_of id rev a x b y :
  Py.hashable id = true -> Py.hashable rev = true ->
  a <> b -> a ∉ reserved -> b ∉ reserved ->
  reconcile list_of initial
    [Yield (pages_result [fragment id rev [(a, x)]]);
     Yield (pages_result [fragment id rev [(b, y)]])] (Done tt)
  = ([Yield (JObj [("pageid", id); ("lastrevid", rev); (a, x); (b, y)])], Done tt).
Proof.
  intros Hid Hrev Hab Ha Hb.
  destruct (fragment_members id rev a x Ha) as (Hma & Hia & Hra).
  destruct (fragment_members id rev b y Hb) as (Hmb & Hib & Hrb).
  assert (forall ids, ids = [] -> Py.set_mem ids id = Ok false) as Hfresh.
  { intros ids ->. unfold Py.set_mem. by rewrite Hid. }
  unfold reconcile. cbn [drive]. rewrite process_result_one_page.
  rewrite (process_page_new _ _ id Hma Hia); [|by apply Hfresh | done].
  rewrite bind_nil. unfold flush at 1.
  cbn [incomplete new_incomplete modified missing start initial close map
       pending_pages modified_ids missing_titles PageDict.set].
  rewrite bind_nil, !bind_ret, process_result_one_page.
  rewrite (process_page_same_revision _ _ id (fragment id rev [(a, x)]) rev rev
             (JObj [("pageid", id); ("lastrevid", rev); (a, x); (b, y)])
             Hmb Hib); try done.
  - rewrite bind_nil. unfold flush at 1.
    cbn [incomplete new_incomplete modified missing start close map
         pending_pages modified_ids missing_titles PageDict.set PageDict.del].
    rewrite (eq_refl_hashable _ Hid). cbn [map].
    rewrite bind_nil, !bind_ret. reflexivity.
  - by apply Hfresh.
  - cbn. by rewrite (eq_refl_hashable _ Hid).
  - by apply eq_refl_hashable.
  - by apply merge_fragments.
Qed.

(** C6, as amended. [_merge_page] goes through the fields of the
    incoming fragment. A field that the entity lacks is added. For a
    field that both have: an incoming mapping is merged recursively into
    the existing value; an incoming list is appended to an existing list;
    an incoming value of another kind replaces the existing one. When
    the incoming value is a list and the existing one is not, or the
    incoming value is a mapping with members and the existing one is no
    mapping, the merge raises a type error instead of overwriting. The
    other fields of the entity stay. In particular two fragments of one
    page with the same revision marker, one with the field [a] only and
    the other with the field [b] only, delivered by two results in a
    row, make a single entity that has both fields. *)
Theorem merge_rule :
  (forall a b r,
      NoDup b.*1 ->
      merge_page (JObj a) (JObj b) = Ok r ->
      exists m,
        r = JObj m
        /\ forall k,
            match Py.dict_get b k with
            | Some new =>
                exists x, merged_value (Py.dict_get a k) new = Ok x
                          /\ Py.dict_get m k = Some x
            | None => Py.dict_get m k = Py.dict_get a k
            end)
  /\ (forall a b,
        NoDup b.*1 ->
        (forall k new, Py.dict_get b k = Some new ->
                       exists x, merged_value (Py.dict_get a k) new = Ok x) ->
        exists m, merge_page (JObj a) (JObj b) = Ok (JObj m))
  /\ (forall old ys,
        (forall xs, old <> JArr xs) ->
        merged_value (Some old) (JArr ys) = Err TypeError)
  /\ (forall old k new members,
        (forall d, old <> JObj d) ->
        merged_value (Some old) (JObj ((k, new) :: members)) = Err TypeError)
  /\ (forall list_of id rev a x b y,
        Py.hashable id = true -> Py.hashable rev = true ->
        a <> b -> a ∉ reserved -> b ∉ reserved ->
        reconcile list_of initial
          [Yield (pages_result [fragment id rev [(a, x)]]);
           Yield (pages_result [fragment id rev [(b, y)]])] (Done tt)
        = ([Yield (JObj [("pageid", id); ("lastrevid", rev); (a, x); (b, y)])],
           Done tt)).
Proof.
  split; [|split; [|split; [|split]]].
  - intros a b r Hnodup Hmerge. rewrite merge_page_object in Hmerge.
    destruct (merge_members b a) as [m|] eqn:Hm; [|discriminate].
    injection Hmerge as <-. exists m. split; [done|]. intros k.
    destruct (merge_members_lookup _ Hnodup _ _ Hm k) as [Hin Hout].
    destruct (Py.dict_get b k) as [new|] eqn:Hk.
    + by apply Hin, dict_get_Some_elem_of.
    + by apply Hout, dict_get_None.
  - intros a b Hnodup Hall. rewrite merge_page_object.
    destruct (merge_members_succeeds b Hnodup a) as [m ->]; [|by exists m].
    intros k new Hin. apply Hall. by apply dict_get_elem_of.
  - intros old ys Hold. destruct old; try done. by destruct (Hold items).
  - intros old k new members Hold. by apply merge_page_not_object.
  - apply two_fragments_make_one_entity.
Qed.

(** C6 as stated fails when the two values are of different kinds: a
    list that meets a number does not replace it, the merge raises a
    type error. *)
Lemma list_does_not_overwrite_a_number :
  merge_page (JObj [("pageid", JInt 1); ("links", JInt 0)])
             (JObj [("pageid", JInt 1); ("links", JArr [JStr "A"])])
  = Err TypeError.
Proof. reflexivity. Qed.

(** ** Modifications across a gap *)

Lemma eq_sym_false a b :
  Py.hashable a = true -> Py.hashable b = true ->
  Py.eq a b = false -> Py.eq b a = false.
Proof.
  intros Ha Hb Hne. destruct (Py.eq b a) eqn:Heq; [|done].
  apply (eq_key _ _ Hb) in Heq. symmetry in Heq.
  apply (eq_key _ _ Ha) in Heq. congruence.
Qed.

(** C7, on the code. A modification is detected only between two
    results in a row. When a result delivers a page, the next result
    another page only, and a third result the first page again at
    another revision, the entity of the first result is complete and
    yielded when the second result does not mention it, and the fragment
    of the third result starts an entity of its own: the three pages are
    yielded as they came and the stream ends normally, with no
    entities-modified condition. *)
Theorem modification_across_a_gap_is_not_reported :
  forall list_of page1 page2 page3 id id2 rev1 rev3,
    Py.contains page1 "missing" = Ok false ->
    Py.contains page2 "missing" = Ok false ->
    Py.contains page3 "missing" = Ok false ->
    Py.getitem page1 "pageid" = Ok id ->
    Py.getitem page2 "pageid" = Ok id2 ->
    Py.getitem page3 "pageid" = Ok id ->
    Py.hashable id = true ->
    Py.hashable id2 = true ->
    Py.eq id id2 = false ->
    Py.getitem page1 "lastrevid" = Ok rev1 ->
    Py.getitem page3 "lastrevid" = Ok rev3 ->
    Py.eq rev1 rev3 = false ->
    reconcile list_of initial
      [Yield (pages_result [page1]); Yield (pages_result [page2]);
       Yield (pages_result [page3])] (Done tt)
    = ([Yield page1; Yield page2; Yield page3], Done tt).
Proof.
  intros list_of page1 page2 page3 id id2 rev1 rev3
    Hm1 Hm2 Hm3 Hi1 Hi2 Hi3 Hid Hid2 Hne _ _ _.
  assert (forall x, Py.hashable x = true -> Py.set_mem [] x = Ok false) as Hfresh.
  { intros x Hx. unfold Py.set_mem. by rewrite Hx. }
  unfold reconcile. cbn [drive]. rewrite process_result_one_page.
  rewrite (process_page_new _ _ id Hm1 Hi1); [|by apply Hfresh | done].
  rewrite bind_nil. unfold flush at 1.
  cbn [incomplete new_incomplete modified missing start initial close map
       pending_pages modified_ids missing_titles PageDict.set].
  rewrite bind_nil, !bind_ret, process_result_one_page.
  rewrite (process_page_new _ _ id2 Hm2 Hi2);
    [|by apply Hfresh | cbn; by rewrite Hne].
  rewrite bind_nil. unfold flush at 1.
  cbn [incomplete new_incomplete modified missing start close map
       pending_pages modified_ids missing_titles PageDict.set snd].
  rewrite !bind_assoc, (bind_done [Yield page1]), !bind_ret.
  rewrite process_result_one_page.
  rewrite (process_page_new _ _ id Hm3 Hi3);
    [|by apply Hfresh | cbn; by rewrite (eq_sym_false _ _ Hid Hid2 Hne)].
  reflexivity.
Qed.

(** The same through the client: a page at revision 5, another page,
    and the first page at revision 6, in three responses. *)
Example fragments_apart_are_both_yielded :
  forall list_of,
    let continue :=
      Some (JObj [("gapcontinue", JStr "B"); ("continue", JStr "gapcontinue||")]) in
    let run :=
      query_pages list_of default_site ∅
        [Responds (query_reply continue
                     (pages_result [fragment (JInt 1) (JInt 5) [("title", JStr "A")]]));
         Responds (query_reply continue
                     (pages_result [fragment (JInt 2) (JInt 1) [("title", JStr "B")]]));
         Responds (query_reply None
                     (pages_result [fragment (JInt 1) (JInt 6) [("title", JStr "A")]]))] in
    yields (fst run)
    = [fragment (JInt 1) (JInt 5) [("title", JStr "A")];
       fragment (JInt 2) (JInt 1) [("title", JStr "B")];
       fragment (JInt 1) (JInt 6) [("title", JStr "A")]]
    /\ snd run = Done tt.
Proof. intros list_of. vm_compute. split; reflexivity. Qed.

(** When the two fragments come in consecutive results, the entity is
    not yielded and the stream fails with its identifier. *)
Example fragments_in_a_row_are_reported :
  forall list_of,
    lists_the_set list_of ->
    let continue :=
      Some (JObj [("gapcontinue", JStr "B"); ("continue", JStr "gapcontinue||")]) in
    query_pages_outcome
      (query_pages list_of default_site ∅
         [Responds (query_reply continue
                      (pages_result [fragment (JInt 1) (JInt 5) [("title", JStr "A")];
                                     fragment (JInt 2) (JInt 1) [("title", JStr "B")]]));
          Responds (query_reply None
                      (pages_result [fragment (JInt 1) (JInt 6) [("title", JStr "A")]]))])
    = ([fragment (JInt 2) (JInt 1) [("title", JStr "B")]],
       Raised (ApiPagesModifiedError [JInt 1])).
Proof.
  intros list_of Hlist.
  pose proof (proj1 (Permutation_singleton_r _ _) (Hlist [JInt 1])) as Hone.
  vm_compute. vm_compute in Hone. by rewrite Hone.
Qed.

(** * The properties at concrete inputs *)

Lemma plain_empty : plain ∅.
Proof. split; [apply map_Forall_empty | intros k _; apply lookup_empty]. Qed.

Lemma paced_no_delay site : pre_request_delay site = Finite 0 -> paced site.
Proof. unfold paced. intros ->. discriminate. Qed.

Lemma brief_seconds (n : Z) : (0 <= n <= 10 ^ 9)%Z -> brief (Finite (inject_Z n)).
Proof.
  intros Hn. exists (inject_Z n). split; [done|].
  split; [change 0%Q with (inject_Z 0)|]; rewrite <- Zle_Qle; lia.
Qed.

Lemma maxlag_reply_example hs seconds :
  retry_after_of (reply hs maxlag_body) = Ok seconds ->
  maxlag_reply (reply hs maxlag_body) maxlag_error seconds.
Proof.
  intros Hafter. split; [reflexivity|].
  exists maxlag_body, (JStr "maxlag"). by repeat split.
Qed.

Lemma loggable_complete site : loggable site complete.
Proof. intros _ warnings Hw. discriminate Hw. Qed.

(** C1 at a client that does not retry on lag, for one maxlag response. *)
Lemma exhausted_maxlag_witness :
  exists evs,
    call impatient_site "query" ∅ [Responds (reply [] maxlag_body)]
    = ((evs, Raised (ApiError "Server API Error" maxlag_error)), [])
    /\ sleeps LagBackoff evs = [].
Proof.
  apply (exhausted_maxlag_raises_api_error impatient_site "query" ∅
           [] [] (reply [] maxlag_body) maxlag_error (Finite 5) []).
  - apply plain_empty.
  - by apply paced_no_delay.
  - reflexivity.
  - constructor.
  - apply maxlag_reply_example. vm_compute. reflexivity.
Defined.

(** C2 on the code, at a logger that drops warnings and a budget of no
    retry: three failures, three sleeps, four requests, nothing raised. *)
Lemma connection_error_not_raised_witness :
  logger quiet_site WARNING = false
  /\ retry_on_connection_error quiet_site = 0%Z
  /\ exists evs,
       call_loop quiet_site GET plain_kw 0 0 (repeat (Fails ConnectionError) 3)
       = ((evs, Pending), [])
       /\ sleeps ConnBackoff evs = repeat (Finite 5) 3
       /\ length (requests evs) = 4%nat.
Proof.
  split; [reflexivity|]. split; [reflexivity|].
  apply (connection_error_not_raised_when_warnings_are_disabled
           quiet_site GET plain_kw 3 0 0); [reflexivity | | reflexivity].
  split; [by apply paced_no_delay | apply (brief_seconds 5); lia].
Defined.

(** C3 at two maxlag responses, the first with [Retry-After: 2] and the
    second without the header, and a success. *)
Lemma maxlag_retries_witness :
  exists evs,
    call default_site "query" ∅
      [Responds (reply [("Retry-After", "2")] maxlag_body);
       Responds (reply [] maxlag_body);
       Responds (reply [] (JObj complete))]
    = ((evs, Done (JObj complete)), [])
    /\ sleeps LagBackoff evs = [Finite 2; Finite 5]
    /\ sleeps ConnBackoff evs = [].
Proof.
  apply (maxlag_retries_then_success default_site "query" ∅
           [reply [("Retry-After", "2")] maxlag_body; reply [] maxlag_body]
           [Finite 2; Finite 5] (reply [] (JObj complete)) complete []).
  - apply plain_empty.
  - by apply paced_no_delay.
  - right. simpl. lia.
  - repeat constructor;
      try (exists maxlag_error; apply maxlag_reply_example; vm_compute; reflexivity).
    + apply (brief_seconds 2); lia.
    + apply (brief_seconds 5); lia.
  - reflexivity.
  - reflexivity.
  - reflexivity.
  - apply loggable_complete.
Defined.

(** C9 at a 503 whose body is not JSON. *)
Lemma error_status_witness :
  request default_site GET plain_kw (Responds unavailable)
  = ([Request GET plain_kw],
     Raised (ApiError "Call failed"
               (JObj [("status_code", JInt 503);
                      ("text_body", JStr "Service Unavailable")])))
  /\ forall rest,
       call_loop default_site GET plain_kw 3 3 (Responds unavailable :: rest)
       = (([Request GET plain_kw], Raised (call_failed unavailable)), rest).
Proof.
  destruct (error_status_raises_and_is_not_retried default_site GET plain_kw unavailable
              eq_refl) as [Herror _].
  destruct Herror as [Hrequest Hloop]; [simpl; lia|].
  split; [exact Hrequest|].
  intros rest. apply (Hloop 3%Z 3%Z rest). by apply paced_no_delay.
Defined.

(** C4 at [minor=False], beside a sequence [titles=[None]]. *)
Lemma absent_values_witness :
  exists method kw,
    prepare_call default_site "edit"
      {[ "minor" := VBool false; "titles" := VSeq "[None]" [VNone] ]}
    = Ok (method, kw)
    /\ payload kw !! "minor" = None
    /\ payload kw !! "titles" = Some (VStr EmptyString).
Proof.
  destruct (prepare_call_succeeds default_site "edit"
              {[ "minor" := VBool false; "titles" := VSeq "[None]" [VNone] ]})
    as (method & kw & Hprep & _).
  { apply map_Forall_insert_2; [done|]. by apply map_Forall_singleton. }
  { vm_compute; reflexivity. }
  exists method, kw. split; [done|]. split.
  - apply (absent_values_and_empty_sequences default_site "edit" _ method kw
             "minor" (VBool false) Hprep).
    + vm_compute; reflexivity.
    + apply (bool_decide_unpack _); vm_compute; exact I.
    + apply (bool_decide_unpack _); vm_compute; exact I.
    + reflexivity.
    + reflexivity.
  - destruct (absent_values_and_empty_sequences default_site "edit" _ method kw
                "titles" (VSeq "[None]" [VNone]) Hprep) as [_ Hseq].
    + vm_compute; reflexivity.
    + apply (bool_decide_unpack _); vm_compute; exact I.
    + apply (bool_decide_unpack _); vm_compute; exact I.
    + destruct (Hseq [VNone] eq_refl) as (coerced & Hcoerced & _ & Hempty).
      injection Hcoerced as <-. apply Hempty. by repeat constructor.
Defined.

(** C5 at the titles [['A', None, 'B']], for a call that succeeds. *)
Lemma parameter_normalization_witness :
  exists method kw,
    prepare_call default_site "query"
      {[ "titles" := VSeq "['A', None, 'B']" [VStr "A"; VNone; VStr "B"] ]}
    = Ok (method, kw)
    /\ payload kw !! "titles" = Some (VStr "A|B").
Proof.
  destruct (parameter_normalization default_site "query"
              {[ "titles" := VSeq "['A', None, 'B']" [VStr "A"; VNone; VStr "B"] ]}
              "titles" (VSeq "['A', None, 'B']" [VStr "A"; VNone; VStr "B"]))
    as (Hwire & _ & Hsucceeds).
  - vm_compute; reflexivity.
  - apply (bool_decide_unpack _); vm_compute; exact I.
  - apply (bool_decide_unpack _); vm_compute; exact I.
  - destruct Hsucceeds as (method & kw & Hprep).
    + by apply map_Forall_singleton.
    + vm_compute; reflexivity.
    + exists method, kw. split; [exact Hprep|].
      apply (proj1 (Hwire method kw Hprep) [VStr "A"; VNone; VStr "B"] eq_refl).
Defined.

(** C6 at a page whose title comes first and whose links come next. *)
Lemma merge_rule_witness :
  reconcile (fun ids => ids) initial
    [Yield (pages_result [fragment (JInt 1) (JInt 5) [("title", JStr "A")]]);
     Yield (pages_result [fragment (JInt 1) (JInt 5) [("links", JArr [JStr "B"])]])]
    (Done tt)
  = ([Yield (JObj [("pageid", JInt 1); ("lastrevid", JInt 5);
                   ("title", JStr "A"); ("links", JArr [JStr "B"])])],
     Done tt).
Proof.
  apply (proj2 (proj2 (proj2 (proj2 merge_rule))) (fun ids => ids)); try done;
    apply (bool_decide_unpack _); vm_compute; exact I.
Defined.

(** C7 on the code, at a page that comes at revision 5 and, after a
    result with another page, at revision 6. *)
Lemma modification_across_a_gap_witness :
  reconcile (fun ids => ids) initial
    [Yield (pages_result [page_a 5 []]); Yield (pages_result [page_b]);
     Yield (pages_result [page_a 6 []])] (Done tt)
  = ([Yield (page_a 5 []); Yield page_b; Yield (page_a 6 [])], Done tt).
Proof.
  apply (modification_across_a_gap_is_not_reported (fun ids => ids)
           (page_a 5 []) page_b (page_a 6 []) (JInt 1) (JInt 2) (JInt 5) (JInt 6));
    reflexivity.
Defined.

Lemma distinct_page_a rev members :
  NoDup ("pageid" :: "lastrevid" :: "title" :: members.*1) ->
  distinct_members (page_a rev members).
Proof. done. Qed.

(** The detection at a page that comes at revision 5 and then at
    revision 6, in two results in a row. *)
Example modified_entity_at_two_results_in_a_row :
  exists later out,
    reconcile (fun ids => ids) initial
      [Yield (pages_result [page_a 5 []; page_b]); Yield (pages_result [page_a 6 []])]
      (Done tt)
    = (later, out)
    /\ Forall (not_entity (JInt 1)) (yields later)
    /\ out = Raised (ApiPagesModifiedError [JInt 1]).
Proof.
  destruct (modified_entity_is_reported_at_the_end (fun ids => ids)
              [Yield (pages_result [page_a 5 []; page_b])] []
              {| pending_pages := [(JInt 1, page_a 5 []); (JInt 2, page_b)];
                 modified_ids := []; missing_titles := [] |}
              (pages_result [page_a 6 []]) [] (page_a 6 []) [] []
              {| incomplete := [(JInt 1, page_a 5 []); (JInt 2, page_b)];
                 new_incomplete := []; modified := []; missing := [] |}
              (page_a 5 []) (JInt 1) (JInt 5) (JInt 6) [])
    as (later & out & Hrun & Hlater & _ & Hend); try reflexivity.
  - by intros ids.
  - repeat constructor; simpl; set_solver.
  - exists later, out. split; [exact Hrun|]. split; [exact Hlater|].
    destruct (Hend [Yield page_b]
                {| pending_pages := []; modified_ids := [JInt 1];
                   missing_titles := [] |})
      as (-> & _); reflexivity.
Qed.

Lemma query_reply_page continue result :
  page_reply "query" (query_reply (JObj <$> continue) result)
    (match continue with
     | Some c => [("continue", JObj c)]
     | None => []
     end ++ [("query", result)])
    result.
Proof. by destruct continue. Qed.

Lemma query_reply_loggable site continue result :
  loggable site (match continue with
                 | Some c => [("continue", JObj c)]
                 | None => []
                 end ++ [("query", result)]).
Proof. intros _ warnings Hw. destruct continue; discriminate Hw. Qed.

Lemma plain_gap_continue : plain_continue gap_continue.
Proof. intros k [-> | [-> | ->]]%reserved_keyword_cases; reflexivity. Qed.

(** C8 at a query by a generator whose answer comes in three parts. *)
Lemma three_responses_witness :
  exists evs,
    iterate default_site "query" ∅ (fun _ => None)
      [Responds (query_reply (Some (JObj gap_continue)) (pages_result [page_a 5 []]));
       Responds (query_reply (Some (JObj gap_continue)) (pages_result [page_b]));
       Responds (query_reply None (pages_result []))]
    = ((evs, Done tt), [])
    /\ yields evs
       = [pages_result [page_a 5 []]; pages_result [page_b]; pages_result []]
    /\ length (requests evs) = 3%nat.
Proof.
  destruct (three_responses_yield_three_pages default_site "query" ∅ (fun _ => None)
              (query_reply (Some (JObj gap_continue)) (pages_result [page_a 5 []]))
              [("continue", JObj gap_continue); ("query", pages_result [page_a 5 []])]
              (pages_result [page_a 5 []]) gap_continue
              (query_reply (Some (JObj gap_continue)) (pages_result [page_b]))
              [("continue", JObj gap_continue); ("query", pages_result [page_b])]
              (pages_result [page_b]) gap_continue
              (query_reply None (pages_result []))
              [("query", pages_result [])]
              (pages_result []))
    as [Hstop _].
  - vm_compute; reflexivity.
  - vm_compute; reflexivity.
  - apply plain_empty.
  - intros seen adjustments H. discriminate H.
  - by apply paced_no_delay.
  - apply (query_reply_page (Some gap_continue)).
  - apply (query_reply_page (Some gap_continue)).
  - apply (query_reply_page None).
  - apply (query_reply_loggable default_site (Some gap_continue)).
  - apply (query_reply_loggable default_site (Some gap_continue)).
  - apply (query_reply_loggable default_site None).
  - reflexivity.
  - apply plain_gap_continue.
  - reflexivity.
  - apply plain_gap_continue.
  - apply Hstop. reflexivity.
Defined.

(** C10 at a page that was buffered with its title and whose extract
    comes without a revision. *)
Lemma fragment_without_revision_witness :
  process_page
    {| incomplete := [(JInt 1, page_a 5 [])]; new_incomplete := [];
       modified := []; missing := [] |}
    (JObj [("pageid", JInt 1); ("extract", JStr "An article.")])
  = ([], Done {| incomplete := [];
                 new_incomplete :=
                   [(JInt 1, page_a 5 [("extract", JStr "An article.")])];
                 modified := []; missing := [] |}).
Proof.
  apply (fragment_without_revision_is_merged
           {| incomplete := [(JInt 1, page_a 5 [])]; new_incomplete := [];
              modified := []; missing := [] |}
           (JObj [("pageid", JInt 1); ("extract", JStr "An article.")])
           (JInt 1) (page_a 5 [])); try reflexivity.
  apply (reachable_next
           {| incomplete := []; new_incomplete := [(JInt 1, page_a 5 [])];
              modified := []; missing := [] |}).
  apply (reachable_page (start initial) (page_a 5 []) []);
    [apply reachable_start | reflexivity].
Defined.

(** * The embedding at work *)

Example float_of_string_seconds :
  Builtins.float_of_string "5" = Some (Finite 5) /\
  Builtins.float_of_string " 1_0.5e1 " = Some (Finite 105) /\
  Builtins.float_of_string "-.5" = Some (Finite (- (5 # 10))) /\
  Builtins.float_of_string "1e999" = Some (Infinite false) /\
  Builtins.float_of_string "Fri, 31 Dec 1999 23:59:59 GMT" = None /\
  Builtins.float_of_string "soon" = None /\
  Builtins.float_of_string "." = None /\
  Builtins.float_of_string "1e" = None.
Proof. vm_compute. repeat split. Qed.

(** What [time.sleep] takes: a duration that is not negative, not too
    long and a number. *)
Example durations_of_a_sleep :
  Time.sleep (Finite 0) = Ok tt
  /\ Time.sleep (Finite (5 # 10)) = Ok tt
  /\ Time.sleep (Finite (-1)) = Err ValueError
  /\ Time.sleep NaN = Err ValueError
  /\ Time.sleep (Infinite false) = Err OverflowError
  /\ Time.sleep (Finite (inject_Z (10 ^ 10))) = Err OverflowError.
Proof. vm_compute. repeat split. Qed.

Example repr_of_a_list :
  Repr.of_json (JArr [JStr "a'b"; JInt (-3); JNull; JObj [("k", JBool true)]])
  = String.concat EmptyString
      ["["; String Repr.double_quote "a'b"; String Repr.double_quote ", -3, None, {'k': True}]"].
Proof. vm_compute. reflexivity. Qed.

Example timestamp_of_a_datetime :
  update_value
    (VDatetime {| year := 2021; month := 3; day := 4; hour := 5; minute := 6;
                  second := 7; tzinfo := Some (Some 0%Z) |})
  = Ok (Some "2021-03-04T05:06:07Z").
Proof. vm_compute. reflexivity. Qed.

Example str_of_a_datetime :
  py_str
    (VDatetime {| year := 2021; month := 3; day := 4; hour := 5; minute := 6;
                  second := 7; tzinfo := Some (Some (-19800000000)%Z) |})
  = "2021-03-04 05:06:07-05:30".
Proof. vm_compute. reflexivity. Qed.

(** The parameters of a call on the wire. *)
Example payload_of_a_call :
  match prepare_call default_site "query"
          {[ "titles" := VSeq "['A', None, 'B']" [VStr "A"; VNone; VStr "B"];
             "redirects" := VBool true; "converttitles" := VBool false;
             "POST" := VBool true; "gaplimit" := VInt 50 ]} with
  | Ok (method, kw) => Some (method, map_to_list (payload kw))
  | Err _ => None
  end
  = Some (POST,
          map_to_list
            ({[ "titles" := VStr "A|B"; "redirects" := VStr "1";
                "gaplimit" := VStr "50"; "action" := VStr "query";
                "format" := VStr "json"; "formatversion" := VInt 2;
                "maxlag" := VInt 30 ]} : gmap string pyval)).
Proof. vm_compute. reflexivity. Qed.

(** Three pages, of which the first comes in two parts: the second page
    is yielded after the first result, the first one, merged, after the
    second result, and then the third. *)
Example pages_split_over_two_results :
  forall list_of,
    query_pages_outcome
      (query_pages list_of default_site ∅
         [Responds (query_reply (Some (JObj gap_continue))
                      (pages_result [page_a 5 []; page_b]));
          Responds (query_reply None
                      (pages_result
                         [fragment (JInt 1) (JInt 5) [("links", JArr [JStr "B"])];
                          fragment (JInt 3) (JInt 9) [("title", JStr "C")]]))])
    = ([page_b;
        page_a 5 [("links", JArr [JStr "B"])];
        fragment (JInt 3) (JInt 9) [("title", JStr "C")]],
       Done tt).
Proof. intros list_of. vm_compute. reflexivity. Qed.

(** A page reported missing by two results is yielded once. *)
Example missing_page_is_yielded_once :
  forall list_of,
    let gone := JObj [("title", JStr "Gone"); ("missing", JBool true)] in
    query_pages_outcome
      (query_pages list_of default_site ∅
         [Responds (query_reply (Some (JObj gap_continue)) (pages_result [gone]));
          Responds (query_reply None (pages_result [gone]))])
    = ([gone], Done tt).
Proof. intros list_of. vm_compute. reflexivity. Qed.
